(** * Environment service of the workbench: paths, IPC handles, debug ports
      and the machine identity

    Shallow embedding of [src/vs/platform/environment/node/environmentService.ts].

    The embedding has three layers.
    - [JS]: the fragment of the language semantics the source relies on —
      truthiness, [a || b], and the [Number(...)] conversion of a string to
      an IEEE 754 binary64 value.
    - What the module imports: the [path] module of the runtime as the
      interface [PathModule], with its POSIX flavour [Posix] as an instance,
      and the SHA-256 digest of [crypto].
    - The service itself: the free functions of the source, the memoized
      getters of [EnvironmentService] and its constructor, which acts on a
      file system that can fail.
    The properties follow the embedding. *)

From Stdlib Require Import ZArith Ascii String List Bool Lia.
From Stdlib Require Import Floats.SpecFloat.
From stdpp Require Import base option strings gmap.

Local Open Scope string_scope.
Local Open Scope Z_scope.

(** ** The JavaScript fragment *)

Module JS.

(** A JS [number] is a binary64 value. *)
Definition number : Type := spec_float.

Definition prec : Z := 53.
Definition emax : Z := 1024.

Definition NaN : number := S754_nan.
Definition Infinity (neg : bool) : number := S754_infinity neg.

(** The number denoted by an integer literal of the source, such as [5870]:
    the integer rounded to nearest, ties to even. *)
Definition of_Z (z : Z) : number := binary_normalize prec emax z 0 false.

(** [ToBoolean] on numbers: [+0], [-0] and [NaN] are falsy. *)
Definition truthy (n : number) : bool :=
  match n with
  | S754_zero _ | S754_nan => false
  | S754_infinity _ | S754_finite _ _ _ => true
  end.

(** [ToBoolean] on strings: only the empty string is falsy. *)
Definition truthy_str (s : string) : bool :=
  match s with
  | EmptyString => false
  | String _ _ => true
  end.

(** [ToBoolean] on a value that is a string or [undefined]. *)
Definition truthy_opt (o : option string) : bool :=
  match o with
  | Some s => truthy_str s
  | None => false
  end.

(** [a || b] where both operands are a string or [undefined]. *)
Definition or_else (a b : option string) : option string :=
  if truthy_opt a then a else b.

(** [a || b] where [b] is always a string. *)
Definition or_str (a : option string) (b : string) : string :=
  match a with
  | Some s => if truthy_str s then s else b
  | None => b
  end.

(** *** [Number(s)]: the StringNumericLiteral grammar

    A string is a sequence of code units; the embedding covers the code
    units below 256, one per [ascii]. *)

(** StrWhiteSpaceChar, restricted to code units below 256:
    TAB, LF, VT, FF, CR, SP and NBSP. *)
Definition is_white_space (c : ascii) : bool :=
  let n := nat_of_ascii c in
  ((9 <=? n) && (n <=? 13) || (n =? 32) || (n =? 160))%nat.

Fixpoint trim_left (s : string) : string :=
  match s with
  | String c r => if is_white_space c then trim_left r else s
  | EmptyString => EmptyString
  end.

Fixpoint rev_string (acc s : string) : string :=
  match s with
  | EmptyString => acc
  | String c r => rev_string (String c acc) r
  end.

Definition trim (s : string) : string :=
  rev_string "" (trim_left (rev_string "" (trim_left s))).

(** The value of a digit in a radix up to 16, if the code unit is one. *)
Definition digit_value (radix : Z) (c : ascii) : option Z :=
  let n := Z.of_nat (nat_of_ascii c) in
  let v :=
    if (48 <=? n) && (n <=? 57) then Some (n - 48)
    else if (97 <=? n) && (n <=? 102) then Some (n - 87)
    else if (65 <=? n) && (n <=? 70) then Some (n - 55)
    else None in
  match v with
  | Some d => if d <? radix then Some d else None
  | None => None
  end.

(** Reads the longest prefix of digits of the radix: the value read so far,
    the number of digits read, and the rest of the string. *)
Fixpoint read_digits (radix : Z) (acc : Z) (count : nat) (s : string)
  : Z * nat * string :=
  match s with
  | String c r =>
      match digit_value radix c with
      | Some d => read_digits radix (acc * radix + d) (S count) r
      | None => (acc, count, s)
      end
  | EmptyString => (acc, count, s)
  end.

(** The mathematical value of a literal: [mv_sign (mv_digits * 10 ^ mv_exp)]. *)
Record MV := { mv_neg : bool; mv_digits : Z; mv_exp : Z }.

(** Rounds a mathematical value to the nearest binary64, ties to even. *)
Definition round_MV (v : MV) : number :=
  let m := mv_digits v in
  if m =? 0 then S754_zero (mv_neg v)
  else if 0 <=? mv_exp v
  then binary_normalize prec emax
         ((if mv_neg v then - m else m) * 10 ^ mv_exp v) 0 false
  else
    let '(q, e, l) :=
      SFdiv_core_binary prec emax m 0 (10 ^ (- mv_exp v)) 0 in
    binary_round_aux prec emax (mv_neg v) q e l.

(** ExponentPart_opt at the end of a decimal literal: [Some e] when the rest
    of the string is empty ([e = 0]) or an exponent part and nothing else. *)
Definition read_exponent (s : string) : option Z :=
  match s with
  | EmptyString => Some 0
  | String c r =>
      if (Ascii.eqb c "e" || Ascii.eqb c "E")%bool then
        let '(neg, r) :=
          match r with
          | String "+" r' => (false, r')
          | String "-" r' => (true, r')
          | _ => (false, r)
          end in
        match read_digits 10 0 0 r with
        | (_, O, _) => None
        | (e, S _, EmptyString) => Some (if neg then - e else e)
        | (_, S _, String _ _) => None
        end
      else None
  end.

(** StrUnsignedDecimalLiteral other than [Infinity]. *)
Definition read_unsigned_decimal (neg : bool) (s : string) : option MV :=
  let '(ip, ni, r1) := read_digits 10 0 0 s in
  match r1 with
  | String "." r2 =>
      let '(m, nf, r3) := read_digits 10 ip 0 r2 in
      match ni, nf with
      | O, O => None
      | _, _ =>
          match read_exponent r3 with
          | Some e => Some {| mv_neg := neg; mv_digits := m;
                              mv_exp := e - Z.of_nat nf |}
          | None => None
          end
      end
  | _ =>
      match ni with
      | O => None
      | S _ =>
          match read_exponent r1 with
          | Some e => Some {| mv_neg := neg; mv_digits := ip; mv_exp := e |}
          | None => None
          end
      end
  end.

(** StrDecimalLiteral after its optional sign. *)
Definition read_decimal (neg : bool) (s : string) : number :=
  if String.eqb s "Infinity" then Infinity neg
  else match read_unsigned_decimal neg s with
       | Some v => round_MV v
       | None => NaN
       end.

(** BinaryIntegerLiteral, OctalIntegerLiteral and HexIntegerLiteral after
    their two-character prefix. *)
Definition read_radix (radix : Z) (s : string) : number :=
  match read_digits radix 0 0 s with
  | (v, S _, EmptyString) => of_Z v
  | _ => NaN
  end.

(** StringToNumber. *)
Definition string_to_number (s : string) : number :=
  match trim s with
  | EmptyString => S754_zero false
  | String "+" r => read_decimal false r
  | String "-" r => read_decimal true r
  | String "0" (String c r) as t =>
      if (Ascii.eqb c "x" || Ascii.eqb c "X")%bool then read_radix 16 r
      else if (Ascii.eqb c "o" || Ascii.eqb c "O")%bool then read_radix 8 r
      else if (Ascii.eqb c "b" || Ascii.eqb c "B")%bool then read_radix 2 r
      else read_decimal false t
  | t => read_decimal false t
  end.

(** [Number(v)] for [v] a string or [undefined]. *)
Definition Number (v : option string) : number :=
  match v with
  | Some s => string_to_number s
  | None => NaN
  end.

(** Decimal integer literals: strings of decimal digits, and the integer
    such a string denotes after the digits read so far. *)
Definition is_decimal_digit (c : ascii) : bool :=
  match digit_value 10 c with
  | Some _ => true
  | None => false
  end.

Fixpoint all_digits (s : string) : bool :=
  match s with
  | EmptyString => true
  | String c r => is_decimal_digit c && all_digits r
  end.

Fixpoint decimal_value (acc : Z) (s : string) : Z :=
  match s with
  | EmptyString => acc
  | String c r =>
      decimal_value (acc * 10 + (Z.of_nat (nat_of_ascii c) - 48)) r
  end.

(** [s.substr(0, n)]. *)
Fixpoint substr0 (n : nat) (s : string) : string :=
  match n, s with
  | S k, String c r => String c (substr0 k r)
  | _, _ => EmptyString
  end.

End JS.

(** ** Debug ports *)

(** [IExtensionHostDebugParams]; [port] is [number | null]. *)
Record DebugParams := {
  port : option JS.number;
  break : bool;
  debugId : option string
}.

(** [port ? ... : ...] on a [number | null]. *)
Definition port_truthy (p : option JS.number) : bool :=
  match p with
  | Some n => JS.truthy n
  | None => false
  end.

Definition parseDebugPort (debugArg debugBrkArg : option string)
    (defaultBuildPort : JS.number) (isBuild : bool)
    (debugId : option string) : DebugParams :=
  let portStr := JS.or_else debugBrkArg debugArg in
  let port :=
    let n := JS.Number portStr in
    if JS.truthy n then Some n
    else if negb isBuild then Some defaultBuildPort else None in
  let brk := if port_truthy port then JS.truthy_opt debugBrkArg else false in
  {| port := port; break := brk; debugId := debugId |}.

(** ** The [path] module *)

(** The operations of the runtime's [path] module that the service uses.
    [resolve] reads the current working directory, here its first argument.
    Whatever the platform flavour, [resolve] never returns the empty string. *)
Record PathModule := {
  join : list string -> string;
  normalize : string -> string;
  resolve : string -> list string -> string;
  dirname : string -> string;
  resolve_truthy : forall cwd segs, JS.truthy_str (resolve cwd segs) = true
}.

(** The POSIX flavour of the [path] module. *)
Module Posix.

Definition slash : ascii := "/"%char.

Definition is_absolute (s : string) : bool :=
  match s with
  | String c _ => Ascii.eqb c slash
  | EmptyString => false
  end.

Fixpoint ends_with_slash (s : string) : bool :=
  match s with
  | EmptyString => false
  | String c EmptyString => Ascii.eqb c slash
  | String _ r => ends_with_slash r
  end.

(** The components between the slashes, empty ones included. *)
Fixpoint segments (s : string) : list string :=
  match s with
  | EmptyString => [""]
  | String c r =>
      if Ascii.eqb c slash then "" :: segments r
      else match segments r with
           | x :: xs => String c x :: xs
           | [] => [String c ""]
           end
  end.

(** One component pushed onto the components kept so far, last one first. *)
Definition push_segment (allowAboveRoot : bool) (stack : list string)
    (seg : string) : list string :=
  if String.eqb seg "" || String.eqb seg "." then stack
  else if String.eqb seg ".." then
    match stack with
    | top :: rest =>
        if String.eqb top ".." then
          (if allowAboveRoot then seg :: stack else stack)
        else rest
    | [] => if allowAboveRoot then [seg] else []
    end
  else seg :: stack.

Fixpoint join_with_slash (l : list string) : string :=
  match l with
  | [] => ""
  | [x] => x
  | x :: r => x ++ String slash (join_with_slash r)
  end.

(** Resolves [.] and [..] components and drops empty ones. *)
Definition normalizeString (path : string) (allowAboveRoot : bool) : string :=
  join_with_slash
    (rev (fold_left (push_segment allowAboveRoot) (segments path) [])).

Definition normalize (path : string) : string :=
  if String.eqb path "" then "."
  else
    let isAbsolute := is_absolute path in
    let trailingSeparator := ends_with_slash path in
    let p := normalizeString path (negb isAbsolute) in
    let p := if String.eqb p "" && negb isAbsolute then "." else p in
    let p := if negb (String.eqb p "") && trailingSeparator
             then p ++ "/" else p in
    if isAbsolute then "/" ++ p else p.

Definition join (args : list string) : string :=
  match filter (fun a => JS.truthy_str a) args with
  | [] => "."
  | parts => normalize (join_with_slash parts)
  end.

(** The loop of [resolve]: from the last argument to the first and then the
    working directory, until an absolute one has been prepended. *)
Fixpoint resolve_loop (paths : list string) (resolvedPath : string)
  : string * bool :=
  match paths with
  | [] => (resolvedPath, false)
  | p :: rest =>
      if String.eqb p "" then resolve_loop rest resolvedPath
      else
        let resolvedPath := p ++ "/" ++ resolvedPath in
        if is_absolute p then (resolvedPath, true)
        else resolve_loop rest resolvedPath
  end.

Definition resolve (cwd : string) (args : list string) : string :=
  let '(resolvedPath, resolvedAbsolute) :=
    resolve_loop (rev args ++ [cwd]) "" in
  let resolvedPath := normalizeString resolvedPath (negb resolvedAbsolute) in
  if resolvedAbsolute then
    (if JS.truthy_str resolvedPath then "/" ++ resolvedPath else "/")
  else if JS.truthy_str resolvedPath then resolvedPath
  else ".".

Fixpoint drop_while (f : ascii -> bool) (s : string) : string :=
  match s with
  | String c r => if f c then drop_while f r else s
  | EmptyString => EmptyString
  end.

Definition dirname (path : string) : string :=
  match path with
  | EmptyString => "."
  | String c0 tail =>
      let hasRoot := Ascii.eqb c0 slash in
      let is_slash c := Ascii.eqb c slash in
      (* scanning from the end down to index 1: trailing slashes, then the
         last component, then the slash in front of it *)
      let r := drop_while is_slash (JS.rev_string "" tail) in
      let r := drop_while (fun c => negb (is_slash c)) r in
      match r with
      | EmptyString => if hasRoot then "/" else "."
      | String _ EmptyString =>
          if hasRoot then "//" else String c0 ""
      | String _ before => String c0 (JS.rev_string "" before)
      end
  end.

End Posix.

(** ** SHA-256, as [crypto.createHash('sha256')] computes it *)

Module Sha256.

Definition w32 (x : Z) : Z := x mod 2 ^ 32.

Definition rotr (n x : Z) : Z :=
  Z.lor (Z.shiftr x n) (w32 (Z.shiftl x (32 - n))).

Definition Ch (x y z : Z) : Z :=
  Z.lxor (Z.land x y) (Z.land (Z.lnot x) z).

Definition Maj (x y z : Z) : Z :=
  Z.lxor (Z.lxor (Z.land x y) (Z.land x z)) (Z.land y z).

Definition Sigma0 (x : Z) : Z :=
  Z.lxor (Z.lxor (rotr 2 x) (rotr 13 x)) (rotr 22 x).

Definition Sigma1 (x : Z) : Z :=
  Z.lxor (Z.lxor (rotr 6 x) (rotr 11 x)) (rotr 25 x).

Definition sigma0 (x : Z) : Z :=
  Z.lxor (Z.lxor (rotr 7 x) (rotr 18 x)) (Z.shiftr x 3).

Definition sigma1 (x : Z) : Z :=
  Z.lxor (Z.lxor (rotr 17 x) (rotr 19 x)) (Z.shiftr x 10).

(** The first [count] primes from [n] on, by trial division. *)
Fixpoint primes_from (fuel : nat) (n : Z) (found : list Z) (count : nat)
  : list Z :=
  match fuel, count with
  | O, _ | _, O => rev found
  | S fuel', S count' =>
      if forallb (fun q => negb (n mod q =? 0)) found
      then primes_from fuel' (n + 1) (n :: found) count'
      else primes_from fuel' (n + 1) found count
  end.

(** The integer part of the root of degree [k] of [n], bit by bit. *)
Definition root_floor (k : Z) (n : Z) : Z :=
  fold_left
    (fun r i => let r' := r + 2 ^ Z.of_nat i in
                if r' ^ k <=? n then r' else r)
    (rev (seq 0 40)) 0.

(** The first 32 bits of the fractional part of the root of degree [k] of
    [p]. *)
Definition root_fraction (k p : Z) : Z :=
  w32 (root_floor k (p * 2 ^ (32 * k))).

(** The round constants: the cube roots of the first 64 primes. *)
Definition K : list Z :=
  Eval vm_compute in map (root_fraction 3) (primes_from 400 2 [] 64).

(** The initial hash value: the square roots of the first 8 primes. *)
Definition H0 : list Z :=
  Eval vm_compute in map (root_fraction 2) (primes_from 400 2 [] 8).

(** The UTF-8 encoding of a string of code units below 256. *)
Fixpoint utf8 (s : string) : list Z :=
  match s with
  | EmptyString => []
  | String c r =>
      let n := Z.of_nat (nat_of_ascii c) in
      if n <? 128 then n :: utf8 r
      else Z.lor 192 (Z.shiftr n 6) :: Z.lor 128 (Z.land n 63) :: utf8 r
  end.

Definition big_endian (count : nat) (x : Z) : list Z :=
  map (fun i => Z.shiftr x (8 * Z.of_nat i) mod 256) (rev (seq 0 count)).

Definition pad (msg : list Z) : list Z :=
  let l := Z.of_nat (length msg) in
  msg ++ [128] ++ repeat 0 (Z.to_nat ((55 - l) mod 64)) ++ big_endian 8 (8 * l).

Fixpoint words (fuel : nat) (bytes : list Z) : list Z :=
  match fuel, bytes with
  | S k, a :: b :: c :: d :: r =>
      (Z.shiftl a 24 + Z.shiftl b 16 + Z.shiftl c 8 + d) :: words k r
  | _, _ => []
  end.

Fixpoint blocks (fuel : nat) (ws : list Z) : list (list Z) :=
  match fuel, ws with
  | _, [] => []
  | O, _ => []
  | S k, _ => firstn 16 ws :: blocks k (skipn 16 ws)
  end.

(** The message schedule, newest word first. *)
Fixpoint extend (n : nat) (ws : list Z) : list Z :=
  match n with
  | O => ws
  | S k =>
      let w := w32 (sigma1 (nth 1 ws 0) + nth 6 ws 0
                    + sigma0 (nth 14 ws 0) + nth 15 ws 0) in
      extend k (w :: ws)
  end.

Definition schedule (block : list Z) : list Z :=
  rev (extend 48 (rev block)).

Definition round (st : list Z) (kw : Z * Z) : list Z :=
  match st with
  | [a; b; c; d; e; f; g; h] =>
      let t1 := h + Sigma1 e + Ch e f g + fst kw + snd kw in
      let t2 := Sigma0 a + Maj a b c in
      [w32 (t1 + t2); a; b; c; w32 (d + t1); e; f; g]
  | _ => st
  end.

Definition compress (h : list Z) (block : list Z) : list Z :=
  let st := fold_left round (combine K (schedule block)) h in
  map (fun p => w32 (fst p + snd p)) (combine h st).

Definition hex_digit (d : Z) : ascii :=
  ascii_of_nat (Z.to_nat (if d <? 10 then 48 + d else 87 + d)).

Definition hex_word (x : Z) : string :=
  fold_right (fun i acc => String (hex_digit (Z.shiftr x (4 * Z.of_nat i) mod 16)) acc)
    "" (rev (seq 0 8)).

(** [crypto.createHash('sha256').update(s).digest('hex')]. *)
Definition hex (s : string) : string :=
  let bytes := pad (utf8 s) in
  let ws := words (length bytes) bytes in
  let h := fold_left compress (blocks (length ws) ws) H0 in
  fold_right (fun w acc => hex_word w ++ acc) "" h.

End Sha256.

(** ** Inputs of the service *)

(** The parsed command line ([ParsedArgs]); an option that was not given is
    [undefined], here [None]. *)
Module ParsedArgs.
Record t := {
  user_data_dir : option string;
  extensions_dir : option string;
  extensionDevelopmentPath : option string;
  extensionTestsPath : option string;
  disable_extensions : option bool;
  skip_getting_started : option bool;
  debugPluginHost : option string;
  debugBrkPluginHost : option string;
  debugId : option string;
  debugSearch : option string;
  debugBrkSearch : option string;
  verbose : option bool;
  wait : option bool;
  logExtensionHostCommunication : option bool;
  performance : option bool;
  prof_startup : option bool
}.

Definition empty : t :=
  {| user_data_dir := None; extensions_dir := None;
     extensionDevelopmentPath := None; extensionTestsPath := None;
     disable_extensions := None; skip_getting_started := None;
     debugPluginHost := None; debugBrkPluginHost := None; debugId := None;
     debugSearch := None; debugBrkSearch := None; verbose := None;
     wait := None; logExtensionHostCommunication := None;
     performance := None; prof_startup := None |}.
End ParsedArgs.

(** The [process] object: [process.platform], [process.env] and
    [process.cwd()]. *)
Module Process.
Record t := {
  platform : string;
  env : gmap string string;
  cwd : string
}.
End Process.

(** The ambient state a getter can read when it runs: the process,
    [os.homedir()] and the file path behind [require.toUrl('')]. *)
Record Globals := {
  process : Process.t;
  os_homedir : string;
  toUrl_fsPath : string
}.

(** [vs/platform/node/package]. *)
Record Package := { pkg_name : string; pkg_version : string }.

(** [vs/platform/node/product]. *)
Record Product := {
  applicationName : string;
  nameLong : string;
  quality : string;
  dataFolderName : string;
  commit : string
}.

(** What the module imports and does not define: the [path] module, the
    package and product descriptions, the SHA-256 digest in hexadecimal of
    [crypto] (64 characters long), and [getDefaultUserDataPath] of
    [vs/base/node/paths]. *)
Record Runtime := {
  path : PathModule;
  pkg : Package;
  product : Product;
  sha256_hex : string -> string;
  getDefaultUserDataPath : string -> string;
  sha256_hex_length : forall s, String.length (sha256_hex s) = 64%nat
}.

(** ** The free functions of the module *)

Section Functions.

Variable rt : Runtime.

Definition getUniqueUserId (proc : Process.t) : string :=
  let username :=
    if String.eqb (Process.platform proc) "win32"
    then Process.env proc !! "USERNAME"
    else Process.env proc !! "USER" in
  match username with
  | Some name =>
      if negb (JS.truthy_str name) then ""
      else JS.substr0 6 (sha256_hex rt name)
  | None => ""
  end.

Definition getNixIPCHandle (proc : Process.t) (userDataPath type : string)
  : string :=
  match Process.env proc !! "XDG_RUNTIME_DIR" with
  | Some dir =>
      if JS.truthy_str dir then
        join (path rt)
          [dir; pkg_name (pkg rt) ++ "-" ++ pkg_version (pkg rt) ++ "-"
                  ++ type ++ ".sock"]
      else join (path rt) [userDataPath;
                           pkg_version (pkg rt) ++ "-" ++ type ++ ".sock"]
  | None => join (path rt) [userDataPath;
                            pkg_version (pkg rt) ++ "-" ++ type ++ ".sock"]
  end.

Definition getWin32IPCHandle (proc : Process.t) (type : string) : string :=
  let userId := getUniqueUserId proc in
  let name :=
    applicationName (product rt)
      ++ (if JS.truthy_str userId then "-" ++ userId else "") in
  "\\.\pipe\" ++ name ++ "-" ++ pkg_version (pkg rt) ++ "-" ++ type ++ "-sock".

Definition getIPCHandle (proc : Process.t) (userDataPath type : string)
  : string :=
  if String.eqb (Process.platform proc) "win32"
  then getWin32IPCHandle proc type
  else getNixIPCHandle proc userDataPath type.

Definition parsePathArg (arg : option string) (proc : Process.t)
  : option string :=
  match arg with
  | None => None
  | Some a =>
      if negb (JS.truthy_str a) then None
      else
        let resolved := resolve (path rt) (Process.cwd proc) [a] in
        if String.eqb (normalize (path rt) a) resolved then Some resolved
        else Some (resolve (path rt) (Process.cwd proc)
                     [JS.or_str (Process.env proc !! "VSCODE_CWD")
                        (Process.cwd proc); a])
  end.

Definition parseUserDataDir (args : ParsedArgs.t) (proc : Process.t)
  : string :=
  JS.or_str (parsePathArg (ParsedArgs.user_data_dir args) proc)
    (resolve (path rt) (Process.cwd proc)
       [getDefaultUserDataPath rt (Process.platform proc)]).

Definition parseExtensionHostPort (args : ParsedArgs.t) (isBuild : bool)
  : DebugParams :=
  parseDebugPort (ParsedArgs.debugPluginHost args)
    (ParsedArgs.debugBrkPluginHost args) (JS.of_Z 5870) isBuild
    (ParsedArgs.debugId args).

Definition parseSearchPort (args : ParsedArgs.t) (isBuild : bool)
  : DebugParams :=
  parseDebugPort (ParsedArgs.debugSearch args)
    (ParsedArgs.debugBrkSearch args) (JS.of_Z 5876) isBuild None.

End Functions.

(** ** The service object and its memoized getters *)

(** The values the getters return. *)
Inductive Value :=
  | VUndefined
  | VString (s : string)
  | VBoolean (b : bool)
  | VArgs (a : ParsedArgs.t)
  | VDebugParams (d : DebugParams)
  | VProfile (prefix : option string) (dir : string).

(** An instance: the two constructor parameters, the [machineUUID] field
    ([None] until the constructor assigns it) and the own properties that
    the [memoize] decorator defines on the instance, by key. *)
Record EnvironmentService := {
  _args : ParsedArgs.t;
  _execPath : string;
  machineUUID : option string;
  memo : gmap string Value
}.

Definition set_memo (this : EnvironmentService) (m : gmap string Value)
  : EnvironmentService :=
  {| _args := _args this; _execPath := _execPath this;
     machineUUID := machineUUID this; memo := m |}.

Definition set_machineUUID (this : EnvironmentService) (u : string)
  : EnvironmentService :=
  {| _args := _args this; _execPath := _execPath this;
     machineUUID := Some u; memo := memo this |}.

(** A getter runs against the ambient state and the instance and may define
    memo properties on the instance. *)
Definition Getter (A : Type) : Type :=
  Globals -> EnvironmentService -> A * EnvironmentService.

Definition ret {A} (a : A) : Getter A := fun _ this => (a, this).

Definition bind {A B} (m : Getter A) (k : A -> Getter B) : Getter B :=
  fun g this => let '(a, this') := m g this in k a g this'.

Definition globals : Getter Globals := fun g this => (g, this).

Definition args_field : Getter ParsedArgs.t := fun _ this => (_args this, this).

Notation "'let*' x ':=' m 'in' k" := (bind m (fun x => k))
  (at level 10, x name, m at level 100, k at level 200).

(** How a value of a getter's return type is stored in, and read back from,
    an own property of the instance. *)
Class Cacheable (A : Type) := {
  enc : A -> Value;
  dec : Value -> A;
  dec_enc : forall a, dec (enc a) = a
}.

#[export, refine] Instance cacheable_string : Cacheable string :=
  {| enc := VString;
     dec v := match v with VString s => s | _ => "" end |}.
Proof. reflexivity. Defined.

#[export, refine] Instance cacheable_opt_string : Cacheable (option string) :=
  {| enc o := match o with Some s => VString s | None => VUndefined end;
     dec v := match v with VString s => Some s | _ => None end |}.
Proof. intros [s|]; reflexivity. Defined.

#[export, refine] Instance cacheable_bool : Cacheable bool :=
  {| enc := VBoolean;
     dec v := match v with VBoolean b => b | _ => false end |}.
Proof. reflexivity. Defined.

#[export, refine] Instance cacheable_opt_bool : Cacheable (option bool) :=
  {| enc o := match o with Some b => VBoolean b | None => VUndefined end;
     dec v := match v with VBoolean b => Some b | _ => None end |}.
Proof. intros [b|]; reflexivity. Defined.

#[export, refine] Instance cacheable_args : Cacheable ParsedArgs.t :=
  {| enc := VArgs;
     dec v := match v with VArgs a => a | _ => ParsedArgs.empty end |}.
Proof. reflexivity. Defined.

#[export, refine] Instance cacheable_debug : Cacheable DebugParams :=
  {| enc := VDebugParams;
     dec v := match v with
              | VDebugParams d => d
              | _ => {| port := None; break := false; debugId := None |}
              end |}.
Proof. reflexivity. Defined.

#[export, refine] Instance cacheable_profile
  : Cacheable (option (option string * string)) :=
  {| enc o := match o with
              | Some (prefix, dir) => VProfile prefix dir
              | None => VUndefined
              end;
     dec v := match v with
              | VProfile prefix dir => Some (prefix, dir)
              | _ => None
              end |}.
Proof. intros [[prefix dir]|]; reflexivity. Defined.

(** Modelled from the spec: the [memoize] decorator of
    [vs/base/common/decorators], which is not part of this module. The
    getter's value is computed at the first access, stored on the instance
    under a key of its own and returned as stored ever after; a stored
    property is never redefined. *)
Definition memoize {A} `{Cacheable A} (key : string) (fn : Getter A)
  : Getter A :=
  fun g this =>
    match memo this !! key with
    | Some v => (dec v, this)
    | None =>
        let '(a, this') := fn g this in
        (a, set_memo this' (<[key := enc a]> (memo this')))
    end.

Section Service.

Variable rt : Runtime.

Definition args : Getter ParsedArgs.t := args_field.

Definition appRoot : Getter string :=
  memoize "$memoize$appRoot"
    (let* g := globals in ret (dirname (path rt) (toUrl_fsPath g))).

Definition execPath : Getter string := fun _ this => (_execPath this, this).

Definition userHome : Getter string :=
  memoize "$memoize$userHome" (let* g := globals in ret (os_homedir g)).

Definition userDataPath : Getter string :=
  memoize "$memoize$userDataPath"
    (let* a := args_field in
     let* g := globals in
     ret (parseUserDataDir rt a (process g))).

Definition appNameLong : Getter string := ret (nameLong (product rt)).

Definition appQuality : Getter string := ret (quality (product rt)).

Definition appSettingsHome : Getter string :=
  memoize "$memoize$appSettingsHome"
    (let* udp := userDataPath in ret (join (path rt) [udp; "User"])).

Definition appSettingsPath : Getter string :=
  memoize "$memoize$appSettingsPath"
    (let* home := appSettingsHome in
     ret (join (path rt) [home; "settings.json"])).

Definition appKeybindingsPath : Getter string :=
  memoize "$memoize$appKeybindingsPath"
    (let* home := appSettingsHome in
     ret (join (path rt) [home; "keybindings.json"])).

Definition isExtensionDevelopment : Getter bool :=
  memoize "$memoize$isExtensionDevelopment"
    (let* a := args_field in
     ret (JS.truthy_opt (ParsedArgs.extensionDevelopmentPath a))).

Definition backupHome : Getter string :=
  memoize "$memoize$backupHome"
    (let* udp := userDataPath in ret (join (path rt) [udp; "Backups"])).

Definition backupWorkspacesPath : Getter string :=
  memoize "$memoize$backupWorkspacesPath"
    (let* home := backupHome in
     ret (join (path rt) [home; "workspaces.json"])).

Definition workspacesHome : Getter string :=
  memoize "$memoize$workspacesHome"
    (let* udp := userDataPath in ret (join (path rt) [udp; "Workspaces"])).

(** [parsePathArg(...) || process.env['VSCODE_EXTENSIONS'] || path.join(...)]:
    [this.userHome] is read only when the first two operands are falsy. *)
Definition extensionsPath : Getter string :=
  memoize "$memoize$extensionsPath"
    (let* a := args_field in
     let* g := globals in
     match JS.or_else (parsePathArg rt (ParsedArgs.extensions_dir a) (process g))
             (Process.env (process g) !! "VSCODE_EXTENSIONS") with
     | Some dir =>
         if JS.truthy_str dir then ret dir
         else let* home := userHome in
              ret (join (path rt)
                     [home; dataFolderName (product rt); "extensions"])
     | None =>
         let* home := userHome in
         ret (join (path rt)
                [home; dataFolderName (product rt); "extensions"])
     end).

(** [x ? path.normalize(x) : x] for an argument [x]. *)
Definition normalize_if_given (x : option string) : option string :=
  match x with
  | Some s => if JS.truthy_str s then Some (normalize (path rt) s) else x
  | None => x
  end.

Definition extensionDevelopmentPath : Getter (option string) :=
  memoize "$memoize$extensionDevelopmentPath"
    (let* a := args_field in
     ret (normalize_if_given (ParsedArgs.extensionDevelopmentPath a))).

Definition extensionTestsPath : Getter (option string) :=
  memoize "$memoize$extensionTestsPath"
    (let* a := args_field in
     ret (normalize_if_given (ParsedArgs.extensionTestsPath a))).

Definition disableExtensions : Getter (option bool) :=
  let* a := args_field in ret (ParsedArgs.disable_extensions a).

Definition skipGettingStarted : Getter (option bool) :=
  let* a := args_field in ret (ParsedArgs.skip_getting_started a).

Definition isBuilt : Getter bool :=
  let* g := globals in
  ret (negb (JS.truthy_opt (Process.env (process g) !! "VSCODE_DEV"))).

Definition debugExtensionHost : Getter DebugParams :=
  memoize "$memoize$debugExtensionHost"
    (let* a := args_field in
     let* built := isBuilt in
     ret (parseExtensionHostPort a built)).

Definition debugSearch : Getter DebugParams :=
  memoize "$memoize$debugSearch"
    (let* a := args_field in
     let* built := isBuilt in
     ret (parseSearchPort a built)).

Definition verbose : Getter (option bool) :=
  let* a := args_field in ret (ParsedArgs.verbose a).

Definition wait : Getter (option bool) :=
  let* a := args_field in ret (ParsedArgs.wait a).

Definition logExtensionHostCommunication : Getter (option bool) :=
  let* a := args_field in ret (ParsedArgs.logExtensionHostCommunication a).

Definition performance : Getter (option bool) :=
  let* a := args_field in ret (ParsedArgs.performance a).

Definition profileStartup : Getter (option (option string * string)) :=
  memoize "$memoize$profileStartup"
    (let* a := args_field in
     let* g := globals in
     match ParsedArgs.prof_startup a with
     | Some true =>
         ret (Some (Process.env (process g) !! "VSCODE_PROFILES_PREFIX",
                    os_homedir g))
     | _ => ret None
     end).

Definition mainIPCHandle : Getter string :=
  memoize "$memoize$mainIPCHandle"
    (let* udp := userDataPath in
     let* g := globals in
     ret (getIPCHandle rt (process g) udp "main")).

Definition sharedIPCHandle : Getter string :=
  memoize "$memoize$sharedIPCHandle"
    (let* udp := userDataPath in
     let* g := globals in
     ret (getIPCHandle rt (process g) udp "shared")).

Definition nodeCachedDataDir : Getter (option string) :=
  memoize "$memoize$nodeCachedDataDir"
    (let* built := isBuilt in
     if built then
       let* udp := userDataPath in
       ret (Some (join (path rt) [udp; "CachedData"; commit (product rt)]))
     else ret None).

(** The getters of the class, by name. *)
Inductive Property :=
  | Pargs | PappRoot | PexecPath | PuserHome | PuserDataPath | PappNameLong
  | PappQuality | PappSettingsHome | PappSettingsPath | PappKeybindingsPath
  | PisExtensionDevelopment | PbackupHome | PbackupWorkspacesPath
  | PworkspacesHome | PextensionsPath | PextensionDevelopmentPath
  | PextensionTestsPath | PdisableExtensions | PskipGettingStarted
  | PdebugExtensionHost | PdebugSearch | PisBuilt | Pverbose | Pwait
  | PlogExtensionHostCommunication | Pperformance | PprofileStartup
  | PmainIPCHandle | PsharedIPCHandle | PnodeCachedDataDir.

(** The getters that carry the [@memoize] decorator. *)
Definition memoized (p : Property) : bool :=
  match p with
  | Pargs | PexecPath | PappNameLong | PappQuality | PdisableExtensions
  | PskipGettingStarted | PisBuilt | Pverbose | Pwait
  | PlogExtensionHostCommunication | Pperformance => false
  | _ => true
  end.

(** The key under which the decorator stores the value of a getter. *)
Definition memoKey (p : Property) : string :=
  match p with
  | PappRoot => "$memoize$appRoot"
  | PuserHome => "$memoize$userHome"
  | PuserDataPath => "$memoize$userDataPath"
  | PappSettingsHome => "$memoize$appSettingsHome"
  | PappSettingsPath => "$memoize$appSettingsPath"
  | PappKeybindingsPath => "$memoize$appKeybindingsPath"
  | PisExtensionDevelopment => "$memoize$isExtensionDevelopment"
  | PbackupHome => "$memoize$backupHome"
  | PbackupWorkspacesPath => "$memoize$backupWorkspacesPath"
  | PworkspacesHome => "$memoize$workspacesHome"
  | PextensionsPath => "$memoize$extensionsPath"
  | PextensionDevelopmentPath => "$memoize$extensionDevelopmentPath"
  | PextensionTestsPath => "$memoize$extensionTestsPath"
  | PdebugExtensionHost => "$memoize$debugExtensionHost"
  | PdebugSearch => "$memoize$debugSearch"
  | PprofileStartup => "$memoize$profileStartup"
  | PmainIPCHandle => "$memoize$mainIPCHandle"
  | PsharedIPCHandle => "$memoize$sharedIPCHandle"
  | PnodeCachedDataDir => "$memoize$nodeCachedDataDir"
  | _ => ""
  end.

Definition boxed {A} `{Cacheable A} (m : Getter A) : Getter Value :=
  let* a := m in ret (enc a).

(** Reading property [p] of the instance. *)
Definition access (p : Property) : Getter Value :=
  match p with
  | Pargs => boxed args
  | PappRoot => boxed appRoot
  | PexecPath => boxed execPath
  | PuserHome => boxed userHome
  | PuserDataPath => boxed userDataPath
  | PappNameLong => boxed appNameLong
  | PappQuality => boxed appQuality
  | PappSettingsHome => boxed appSettingsHome
  | PappSettingsPath => boxed appSettingsPath
  | PappKeybindingsPath => boxed appKeybindingsPath
  | PisExtensionDevelopment => boxed isExtensionDevelopment
  | PbackupHome => boxed backupHome
  | PbackupWorkspacesPath => boxed backupWorkspacesPath
  | PworkspacesHome => boxed workspacesHome
  | PextensionsPath => boxed extensionsPath
  | PextensionDevelopmentPath => boxed extensionDevelopmentPath
  | PextensionTestsPath => boxed extensionTestsPath
  | PdisableExtensions => boxed disableExtensions
  | PskipGettingStarted => boxed skipGettingStarted
  | PdebugExtensionHost => boxed debugExtensionHost
  | PdebugSearch => boxed debugSearch
  | PisBuilt => boxed isBuilt
  | Pverbose => boxed verbose
  | Pwait => boxed wait
  | PlogExtensionHostCommunication => boxed logExtensionHostCommunication
  | Pperformance => boxed performance
  | PprofileStartup => boxed profileStartup
  | PmainIPCHandle => boxed mainIPCHandle
  | PsharedIPCHandle => boxed sharedIPCHandle
  | PnodeCachedDataDir => boxed nodeCachedDataDir
  end.

(** A run of the process after construction: property reads, each under the
    ambient state of its moment, which may have changed in between. *)
Fixpoint reads (l : list (Property * Globals)) (this : EnvironmentService)
  : EnvironmentService :=
  match l with
  | [] => this
  | (p, g) :: rest => reads rest (snd (access p g this))
  end.

(** The same reads, all under one ambient state. *)
Definition under (g : Globals) (ps : list Property)
  : list (Property * Globals) :=
  map (fun p => (p, g)) ps.

End Service.

(** The instance as the constructor finds it. *)
Definition fresh (a : ParsedArgs.t) (exe : string) : EnvironmentService :=
  {| _args := a; _execPath := exe; machineUUID := None; memo := ∅ |}.

Create HintDb getters.

#[global] Hint Unfold access boxed args appRoot execPath userHome userDataPath
  appNameLong appQuality appSettingsHome appSettingsPath appKeybindingsPath
  isExtensionDevelopment backupHome backupWorkspacesPath workspacesHome
  extensionsPath extensionDevelopmentPath extensionTestsPath
  disableExtensions skipGettingStarted isBuilt debugExtensionHost debugSearch
  verbose wait logExtensionHostCommunication performance profileStartup
  mainIPCHandle sharedIPCHandle nodeCachedDataDir : getters.

(** ** The file system, the console and the constructor *)

Inductive fs_error := ENOENT | EACCES | EIO | ENOSPC.

(** [fs.writeFileSync] opens the file for writing, which creates it or
    empties it, then writes the data, then closes it. It raises either when
    the file cannot be opened (no permission, a missing directory, a
    read-only volume), and then nothing has changed, or after the file was
    opened (a full disk, a failing device), and then the file exists and
    holds the bytes that were written before the failure. *)
Inductive write_fault :=
  | OpenFails (e : fs_error)
  | WriteFails (e : fs_error) (written : nat).

Definition fault_error (ft : write_fault) : fs_error :=
  match ft with
  | OpenFails e => e
  | WriteFails e _ => e
  end.

(** The files by path, the paths at which a read raises, and the paths at
    which a write raises, with the stage at which it does. *)
Record FileSystem := {
  files : gmap string string;
  read_faults : gmap string fs_error;
  write_faults : gmap string write_fault
}.

Inductive event :=
  | EvRead (path : string)
  | EvWrite (path data : string)
  | EvWarn (message : string).

(** What the constructor acts on outside the instance: the file system, the
    source of fresh identifiers with the number drawn so far, and the log of
    the effects performed, oldest first. *)
Record World := {
  fs : FileSystem;
  uuids : nat -> string;
  uuid_next : nat;
  log : list event
}.

(** A call either returns or throws. *)
Inductive result (A : Type) :=
  | Return (a : A)
  | Throw (e : fs_error).
Arguments Return {A} a.
Arguments Throw {A} e.

Definition Effect (A : Type) : Type := World -> result A * World.

Definition pure {A} (a : A) : Effect A := fun w => (Return a, w).

Definition and_then {A B} (m : Effect A) (k : A -> Effect B) : Effect B :=
  fun w =>
    match m w with
    | (Return a, w') => k a w'
    | (Throw e, w') => (Throw e, w')
    end.

(** [try { body } catch (err) { handler }]. *)
Definition try_catch {A} (body : Effect A) (handler : fs_error -> Effect A)
  : Effect A :=
  fun w =>
    match body w with
    | (Return a, w') => (Return a, w')
    | (Throw e, w') => handler e w'
    end.

Definition emit (e : event) (w : World) : World :=
  {| fs := fs w; uuids := uuids w; uuid_next := uuid_next w;
     log := log w ++ [e] |}.

Definition read_file (f : FileSystem) (p : string) : result string :=
  match read_faults f !! p with
  | Some e => Throw e
  | None =>
      match files f !! p with
      | Some content => Return content
      | None => Throw ENOENT
      end
  end.

(** The file system in which [p] holds [data]. *)
Definition store (f : FileSystem) (p data : string) : FileSystem :=
  {| files := <[p := data]> (files f);
     read_faults := read_faults f;
     write_faults := write_faults f |}.

(** The outcome of a write and the file system it leaves, which after a
    failure is the one before only if the file could not be opened. *)
Definition write_file (f : FileSystem) (p data : string)
  : result unit * FileSystem :=
  match write_faults f !! p with
  | None => (Return tt, store f p data)
  | Some (OpenFails e) => (Throw e, f)
  | Some (WriteFails e written) =>
      (Throw e, store f p (JS.substr0 written data))
  end.

(** [fs.readFileSync(path, 'utf8')]. *)
Definition readFileSync (p : string) : Effect string :=
  fun w => (read_file (fs w) p, emit (EvRead p) w).

(** [fs.writeFileSync(path, data)]. *)
Definition writeFileSync (p data : string) : Effect unit :=
  fun w =>
    let w := emit (EvWrite p data) w in
    let '(r, f) := write_file (fs w) p data in
    (r, {| fs := f; uuids := uuids w; uuid_next := uuid_next w;
           log := log w |}).

(** [console.warn(message)]. *)
Definition console_warn (message : string) : Effect unit :=
  fun w => (Return tt, emit (EvWarn message) w).

(** Modelled from the spec: [generateUuid] of [vs/base/common/uuid], which is
    not part of this module, generates a new random UUID-like token; here
    the next one the source of the world provides. *)
Definition generateUuid : Effect string :=
  fun w =>
    (Return (uuids w (uuid_next w)),
     {| fs := fs w; uuids := uuids w; uuid_next := S (uuid_next w);
        log := log w |}).

(** Removing a file, as another program may do between two runs. *)
Definition unlink (p : string) (w : World) : World :=
  {| fs := {| files := delete p (files (fs w));
              read_faults := read_faults (fs w);
              write_faults := write_faults (fs w) |};
     uuids := uuids w; uuid_next := uuid_next w; log := log w |}.

Section Construction.

Variable rt : Runtime.

Definition machineIdPath (a : ParsedArgs.t) (g : Globals) : string :=
  join (path rt) [parseUserDataDir rt a (process g); "machineid"].

(** [new EnvironmentService(_args, _execPath)]. *)
Definition constructor (a : ParsedArgs.t) (exe : string) (g : Globals)
  : Effect EnvironmentService :=
  let this := fresh a exe in
  let '(udp, this) := userDataPath rt g this in
  let machineIdPath := join (path rt) [udp; "machineid"] in
  try_catch
    (and_then (readFileSync machineIdPath) (fun content =>
     pure (set_machineUUID this content)))
    (fun _ =>
       and_then generateUuid (fun uuid =>
       let this := set_machineUUID this uuid in
       try_catch
         (and_then (writeFileSync machineIdPath uuid) (fun _ => pure this))
         (fun _ =>
            and_then (console_warn "Could not store machine ID")
              (fun _ => pure this)))).

End Construction.

(** ** The specification's wording, for comparison with the code *)

Module Spec.

(** "Effective port source: [breakPortArg] if present, else
    [attachPortArg]." *)
Definition effective_source (attachPortArg breakPortArg : option string)
  : option string :=
  match breakPortArg with
  | Some s => Some s
  | None => attachPortArg
  end.

(** "Parse as integer": an optional sign and decimal digits, nothing else. *)
Definition parse_integer (s : string) : option Z :=
  let '(neg, r) :=
    match s with
    | String "-" r => (true, r)
    | String "+" r => (false, r)
    | _ => (false, s)
    end in
  match JS.read_digits 10 0 0 r with
  | (v, S _, EmptyString) => Some (if neg then - v else v)
  | _ => None
  end.

(** "If parsing fails or both are absent: port is [defaultPort] when not in
    build mode, else absent." *)
Definition negotiate_port (attachPortArg breakPortArg : option string)
    (defaultPort : JS.number) (isBuildMode : bool) : option JS.number :=
  match effective_source attachPortArg breakPortArg with
  | Some s =>
      match parse_integer s with
      | Some n => Some (JS.of_Z n)
      | None => if isBuildMode then None else Some defaultPort
      end
  | None => if isBuildMode then None else Some defaultPort
  end.

(** "[break] is true iff a port was resolved and [breakPortArg] was the one
    supplied (non-absent)." *)
Definition negotiate_break (resolved : option JS.number)
    (breakPortArg : option string) : bool :=
  match resolved, breakPortArg with
  | Some _, Some _ => true
  | _, _ => false
  end.

(** 4.1: "If [arg] is absent, result is absent. Otherwise compute
    [resolved = absolute(arg, baseCwd=cwd)]. If [normalize(arg) == resolved],
    return [resolved]. Else recompute using [cwdOverride] if present, else
    [cwd]." *)
Definition resolve_path_arg (pm : PathModule) (arg : option string)
    (cwd : string) (cwdOverride : option string) : option string :=
  match arg with
  | None => None
  | Some a =>
      let resolved := resolve pm cwd [a] in
      if String.eqb (normalize pm a) resolved then Some resolved
      else Some (resolve pm cwd
                   [match cwdOverride with Some o => o | None => cwd end; a])
  end.

(** 4.2: "explicit [user-data-dir] argument (via 4.1) wins; otherwise fall
    back to the platform's canonical default user-state root." *)
Definition user_data_dir (pm : PathModule) (arg : option string)
    (cwd : string) (cwdOverride : option string) (platformDefault : string)
  : string :=
  match resolve_path_arg pm arg cwd cwdOverride with
  | Some r => r
  | None => platformDefault
  end.

(** 4.4, non-Windows: "prefer a directory supplied by a runtime-provided
    runtime directory environment signal, if set, naming the endpoint
    [{appName}-{appVersion}-{purpose}.sock] inside it; otherwise name it
    [{appVersion}-{purpose}.sock] inside the resolved user data directory." *)
Definition nix_ipc_name (pm : PathModule) (appName appVersion : string)
    (runtimeDir : option string) (userDataPath purpose : string) : string :=
  match runtimeDir with
  | Some dir =>
      join pm [dir; appName ++ "-" ++ appVersion ++ "-" ++ purpose ++ ".sock"]
  | None => join pm [userDataPath; appVersion ++ "-" ++ purpose ++ ".sock"]
  end.

End Spec.

(** * Properties *)

(** ** A concrete runtime, for the examples *)

Lemma length_append (s t : string) :
  String.length (s ++ t) = (String.length s + String.length t)%nat.
Proof. induction s as [|c s IH]; simpl; [reflexivity | now rewrite IH]. Qed.

Lemma posix_resolve_truthy cwd segs :
  JS.truthy_str (Posix.resolve cwd segs) = true.
Proof.
  unfold Posix.resolve.
  destruct (Posix.resolve_loop _ _) as [resolvedPath [|]];
    destruct (JS.truthy_str (Posix.normalizeString _ _)) eqn:E;
    auto.
Qed.

Lemma sha256_round_length st kw :
  length (Sha256.round st kw) = length st.
Proof.
  unfold Sha256.round.
  repeat (destruct st as [|? st]; try reflexivity).
Qed.

Lemma sha256_compress_length h block :
  length (Sha256.compress h block) = length h.
Proof.
  unfold Sha256.compress.
  rewrite length_map, length_combine.
  assert (H : forall kws st, length (fold_left Sha256.round kws st) = length st).
  { induction kws as [|kw kws IH]; intros st; simpl; [reflexivity|].
    now rewrite IH, sha256_round_length. }
  rewrite H. apply Nat.min_id.
Qed.

Lemma sha256_hex_word_length x : String.length (Sha256.hex_word x) = 8%nat.
Proof. reflexivity. Qed.

Lemma sha256_digest_length s : String.length (Sha256.hex s) = 64%nat.
Proof.
  unfold Sha256.hex.
  set (bs := Sha256.blocks _ _). clearbody bs.
  assert (H : length (fold_left Sha256.compress bs Sha256.H0) = 8%nat).
  { generalize Sha256.H0 (eq_refl : length Sha256.H0 = 8%nat).
    induction bs as [|b bs IH]; intros h Hh; simpl; [exact Hh|].
    apply IH. now rewrite sha256_compress_length. }
  destruct (fold_left Sha256.compress bs Sha256.H0)
    as [|a [|b [|c [|d [|e [|f [|g [|h [|]]]]]]]]]; try discriminate H.
  cbn [fold_right]. rewrite !length_append, !sha256_hex_word_length.
  reflexivity.
Qed.

Module Example.

Definition posix : PathModule :=
  {| join := Posix.join; normalize := Posix.normalize;
     resolve := Posix.resolve; dirname := Posix.dirname;
     resolve_truthy := posix_resolve_truthy |}.

(** The open-source build with the POSIX [path] module. The default user
    data directory is the one [getDefaultUserDataPath] yields for a user
    whose configuration directory is [/home/user/.config]. *)
Definition runtime : Runtime :=
  {| path := posix;
     pkg := {| pkg_name := "code-oss-dev"; pkg_version := "1.10.0" |};
     product := {| applicationName := "code-oss"; nameLong := "Code - OSS";
                   quality := "oss"; dataFolderName := ".vscode-oss";
                   commit := "f6868fce3e" |};
     sha256_hex := Sha256.hex;
     getDefaultUserDataPath := fun _ => "/home/user/.config/code-oss-dev";
     sha256_hex_length := sha256_digest_length |}.

Definition linux (env : gmap string string) : Process.t :=
  {| Process.platform := "linux"; Process.env := env; Process.cwd := "/work" |}.

Definition win32 (env : gmap string string) : Process.t :=
  {| Process.platform := "win32"; Process.env := env; Process.cwd := "/work" |}.

(** A command line with at most the two directory options. *)
Definition args (userDataDir extensionsDir : option string) : ParsedArgs.t :=
  {| ParsedArgs.user_data_dir := userDataDir;
     ParsedArgs.extensions_dir := extensionsDir;
     ParsedArgs.extensionDevelopmentPath := None;
     ParsedArgs.extensionTestsPath := None;
     ParsedArgs.disable_extensions := None;
     ParsedArgs.skip_getting_started := None;
     ParsedArgs.debugPluginHost := None;
     ParsedArgs.debugBrkPluginHost := None;
     ParsedArgs.debugId := None;
     ParsedArgs.debugSearch := None;
     ParsedArgs.debugBrkSearch := None;
     ParsedArgs.verbose := None;
     ParsedArgs.wait := None;
     ParsedArgs.logExtensionHostCommunication := None;
     ParsedArgs.performance := None;
     ParsedArgs.prof_startup := None |}.

Definition globals (proc : Process.t) : Globals :=
  {| process := proc; os_homedir := "/home/user";
     toUrl_fsPath := "/opt/code/out/main.js" |}.

(** Three identifiers, as [generateUuid] could draw them in this order. *)
Definition tokens (n : nat) : string :=
  match n with
  | O => "0a3f9c52-7b1e-4d6a-9c2f-1e5b8a7d4c30"
  | S O => "d41c8e9b-2f60-4a17-b3e5-9a0c6f2d7e81"
  | _ => "5b7e2a90-c8d3-4f14-8a6b-3d1f0e9c7a25"
  end.

Definition world (f : FileSystem) : World :=
  {| fs := f; uuids := tokens; uuid_next := 0; log := [] |}.

(** An empty disk on which everything can be read and written. *)
Definition empty_disk : FileSystem :=
  {| files := ∅; read_faults := ∅; write_faults := ∅ |}.

Definition machineid : string := "/home/user/.config/code-oss-dev/machineid".

(** A disk on which the identity file cannot be opened for writing. *)
Definition read_only_disk : FileSystem :=
  {| files := ∅; read_faults := ∅;
     write_faults := {[machineid := OpenFails EACCES]} |}.

(** A disk with no room left: the identity file is created, and the write
    of its content fails. *)
Definition full_disk : FileSystem :=
  {| files := ∅; read_faults := ∅;
     write_faults := {[machineid := WriteFails ENOSPC 0]} |}.

(** A disk whose identity file exists and can be written but not read. *)
Definition write_only_file : FileSystem :=
  {| files := {[machineid := "stale"]};
     read_faults := {[machineid := EACCES]}; write_faults := ∅ |}.

Definition exe : string := "/opt/code/code".

Definition no_args : ParsedArgs.t := args None None.

(** A development run, a built run and a run of another user. *)
Definition dev : Globals := globals (linux {["VSCODE_DEV" := "1"]}).

Definition packaged : Globals := globals (linux ∅).

Definition guest : Globals :=
  {| process := linux ∅; os_homedir := "/home/guest";
     toUrl_fsPath := "/opt/code/out/main.js" |}.

(** The instance the constructor returns. *)
Definition instance (a : ParsedArgs.t) (g : Globals) (w : World)
  : EnvironmentService :=
  match fst (constructor runtime a exe g w) with
  | Return this => this
  | Throw _ => fresh a exe
  end.

(** The world the constructor leaves. *)
Definition next_world (a : ParsedArgs.t) (g : Globals) (w : World) : World :=
  snd (constructor runtime a exe g w).

End Example.

(** ** Numbers *)

(** *** Rounding never turns a non-zero integer into zero *)

Lemma digits2_bounds p :
  2 ^ (Zpos (digits2_pos p) - 1) <= Zpos p < 2 ^ Zpos (digits2_pos p).
Proof.
  induction p as [p IH|p IH|]; simpl digits2_pos.
  - rewrite Pos2Z.inj_succ. replace (Z.succ (Z.pos (digits2_pos p)) - 1) with (Z.succ (Z.pos (digits2_pos p) - 1)) by lia.
    rewrite !Z.pow_succ_r by lia. lia.
  - rewrite Pos2Z.inj_succ. replace (Z.succ (Z.pos (digits2_pos p)) - 1) with (Z.succ (Z.pos (digits2_pos p) - 1)) by lia.
    rewrite !Z.pow_succ_r by lia. lia.
  - simpl. lia.
Qed.

Lemma shr_1_m mrs : 0 <= shr_m mrs -> shr_m (shr_1 mrs) = Z.div2 (shr_m mrs).
Proof.
  destruct mrs as [m r s]. simpl. destruct m as [|[p|p|]|p]; simpl; try reflexivity; lia.
Qed.

Lemma iter_shr_1_m k : forall mrs, 0 <= shr_m mrs ->
  shr_m (SpecFloat.iter_pos shr_1 k mrs) = shr_m mrs / 2 ^ Zpos k.
Proof.
  assert (Hhalf : forall mrs, 0 <= shr_m mrs -> shr_m (shr_1 mrs) = shr_m mrs / 2 /\ 0 <= shr_m (shr_1 mrs)).
  { intros mrs H. rewrite shr_1_m by exact H. rewrite Z.div2_div. split; [reflexivity|]. apply Z.div_pos; lia. }
  induction k as [k IH|k IH|]; intros mrs H; simpl SpecFloat.iter_pos.
  - destruct (Hhalf mrs H) as [E1 P1].
    assert (P2 : 0 <= shr_m (SpecFloat.iter_pos shr_1 k (shr_1 mrs))).
    { rewrite IH by exact P1. apply Z.div_pos; [exact P1 | lia]. }
    rewrite IH by exact P2. rewrite IH by exact P1. rewrite E1.
    rewrite !Z.div_div by lia. f_equal.
    replace (Z.pos k~1) with (Z.pos k + Z.pos k + 1) by lia.
    rewrite !Z.pow_add_r by lia. ring.
  - assert (P2 : 0 <= shr_m (SpecFloat.iter_pos shr_1 k mrs)).
    { rewrite IH by exact H. apply Z.div_pos; [exact H | lia]. }
    rewrite IH by exact P2. rewrite IH by exact H.
    rewrite !Z.div_div by lia. f_equal.
    replace (Z.pos k~0) with (Z.pos k + Z.pos k) by lia.
    rewrite !Z.pow_add_r by lia. ring.
  - destruct (Hhalf mrs H) as [E1 _]. rewrite E1. reflexivity.
Qed.

Lemma shr_record_of_loc_m m l : shr_m (shr_record_of_loc m l) = m.
Proof. destruct l as [|[| |]]; reflexivity. Qed.

Lemma shr_fexp_positive m e l :
  0 < m -> -1074 <= e ->
  0 < shr_m (fst (shr_fexp 53 1024 m e l)) /\ -1074 <= snd (shr_fexp 53 1024 m e l).
Proof.
  intros Hm He. unfold shr_fexp, shr.
  destruct m as [|p|p]; try lia.
  unfold Zdigits2, fexp, emin.
  pose proof (digits2_bounds p) as Hd.
  set (d := Zpos (digits2_pos p)) in *.
  destruct (Z.max (d + e - 53) (3 - 1024 - 53) - e) as [|k|k] eqn:En; simpl fst; simpl snd.
  - rewrite shr_record_of_loc_m. lia.
  - rewrite iter_shr_1_m by (rewrite shr_record_of_loc_m; lia).
    rewrite shr_record_of_loc_m. split; [|lia].
    assert (Hk : Zpos k <= d - 1) by lia.
    apply Z.div_str_pos. split; [lia|].
    apply Z.le_trans with (2 ^ (d - 1)); [|lia].
    apply Z.pow_le_mono_r; lia.
  - rewrite shr_record_of_loc_m. lia.
Qed.

Lemma round_nearest_even_positive m l : 0 < m -> 0 < round_nearest_even m l.
Proof. intros H. destruct l as [|[| |]]; simpl; try lia. destruct (Z.even m); lia. Qed.

Lemma binary_round_aux_truthy sx m e l :
  0 < m -> -1074 <= e -> JS.truthy (binary_round_aux 53 1024 sx m e l) = true.
Proof.
  intros Hm He. unfold binary_round_aux.
  destruct (shr_fexp_positive m e l Hm He) as [H1 H2].
  destruct (shr_fexp 53 1024 m e l) as [mrs' e']. simpl in H1, H2.
  pose proof (round_nearest_even_positive (shr_m mrs') (loc_of_shr_record mrs') H1) as H3.
  destruct (shr_fexp_positive _ e' loc_Exact H3 H2) as [H4 _].
  destruct (shr_fexp 53 1024 _ e' loc_Exact) as [mrs'' e'']. simpl in H4.
  destruct (shr_m mrs'') as [|q|q]; try lia.
  destruct (e'' <=? 1024 - 53); reflexivity.
Qed.

Lemma binary_round_truthy sx p e :
  -1074 <= e -> JS.truthy (binary_round 53 1024 sx p e) = true.
Proof.
  intros He. unfold binary_round, shl_align.
  unfold fexp, emin.
  destruct (Z.max (Z.pos (digits2_pos p) + e - 53) (3 - 1024 - 53) - e) eqn:En;
    apply binary_round_aux_truthy; lia.
Qed.

Lemma of_Z_truthy z : z <> 0 -> JS.truthy (JS.of_Z z) = true.
Proof.
  intros Hz. unfold JS.of_Z, binary_normalize.
  destruct z as [|q|q]; [congruence | |]; apply binary_round_truthy; lia.
Qed.

(** *** [Number] on decimal integer literals *)

Lemma decimal_digit_code c :
  JS.is_decimal_digit c = true ->
  48 <= Z.of_nat (nat_of_ascii c) <= 57
  /\ JS.digit_value 10 c = Some (Z.of_nat (nat_of_ascii c) - 48).
Proof.
  unfold JS.is_decimal_digit, JS.digit_value.
  set (n := Z.of_nat (nat_of_ascii c)).
  destruct (48 <=? n) eqn:E1, (n <=? 57) eqn:E2; simpl;
    try (destruct (n - 48 <? 10) eqn:E3; [intros _; split; [lia|reflexivity]
                                          | lia]);
    destruct ((97 <=? n) && (n <=? 102)) eqn:E4; simpl;
    try (destruct (n - 87 <? 10) eqn:E5; [lia | discriminate]);
    destruct ((65 <=? n) && (n <=? 70)) eqn:E6; simpl;
    try discriminate;
    destruct (n - 55 <? 10) eqn:E7; try discriminate; lia.
Qed.

Lemma read_digits_all s : forall acc n,
  JS.all_digits s = true ->
  JS.read_digits 10 acc n s
  = (JS.decimal_value acc s, (n + String.length s)%nat, "").
Proof.
  induction s as [|c r IH]; intros acc n H; simpl in *.
  - now rewrite Nat.add_0_r.
  - apply andb_prop in H as [Hc Hr].
    destruct (decimal_digit_code c Hc) as [_ ->].
    rewrite IH by exact Hr. now rewrite Nat.add_succ_r.
Qed.

Lemma rev_string_twice s : forall acc acc',
  JS.rev_string acc (JS.rev_string acc' s) = JS.rev_string (s ++ acc) acc'.
Proof.
  induction s as [|c r IH]; intros acc acc'; simpl; [reflexivity|].
  now rewrite IH.
Qed.

Lemma append_empty_r s : s ++ "" = s.
Proof.
  induction s as [|c r IH]; [reflexivity|].
  change (String c r ++ "") with (String c (r ++ "")). now rewrite IH.
Qed.

Lemma all_digits_rev s : forall acc,
  JS.all_digits s = true -> JS.all_digits acc = true ->
  JS.all_digits (JS.rev_string acc s) = true.
Proof.
  induction s as [|c r IH]; intros acc Hs Hacc; simpl in *; [exact Hacc|].
  apply andb_prop in Hs as [Hc Hr]. apply IH; [exact Hr|].
  simpl. now rewrite Hc, Hacc.
Qed.

Lemma trim_left_digits s : JS.all_digits s = true -> JS.trim_left s = s.
Proof.
  destruct s as [|c r]; [reflexivity|]. simpl. intros H.
  apply andb_prop in H as [Hc _].
  destruct (decimal_digit_code c Hc) as [Hn _].
  unfold JS.is_white_space.
  replace ((9 <=? nat_of_ascii c)%nat && (nat_of_ascii c <=? 13)%nat
           || (nat_of_ascii c =? 32)%nat || (nat_of_ascii c =? 160)%nat)
    with false; [reflexivity|].
  symmetry. apply orb_false_intro; [apply orb_false_intro|].
  - apply andb_false_iff. right. apply Nat.leb_gt. lia.
  - apply Nat.eqb_neq. lia.
  - apply Nat.eqb_neq. lia.
Qed.

Lemma trim_digits s : JS.all_digits s = true -> JS.trim s = s.
Proof.
  intros H. unfold JS.trim. rewrite (trim_left_digits s H).
  rewrite trim_left_digits by now apply all_digits_rev.
  rewrite rev_string_twice. simpl. apply append_empty_r.
Qed.

Ltac digit_cases c H :=
  destruct c as [[] [] [] [] [] [] [] []]; try discriminate H.

Lemma read_decimal_digits s :
  s <> "" -> JS.all_digits s = true ->
  JS.read_decimal false s = JS.of_Z (JS.decimal_value 0 s).
Proof.
  intros Hne H. unfold JS.read_decimal.
  assert (Hinf : String.eqb s "Infinity" = false).
  { destruct s as [|c r]; [reflexivity|]. simpl in H.
    apply andb_prop in H as [Hc _]. digit_cases c Hc; reflexivity. }
  rewrite Hinf. unfold JS.read_unsigned_decimal.
  rewrite read_digits_all by exact H.
  destruct s as [|c r]; [congruence|]. simpl String.length. simpl Nat.add.
  cbn [JS.read_exponent]. unfold JS.round_MV; simpl.
  destruct (JS.decimal_value _ r =? 0) eqn:E.
  - apply Z.eqb_eq in E. cbn [JS.decimal_value]. now rewrite E.
  - cbn [JS.decimal_value]. unfold JS.of_Z. now rewrite Z.mul_1_r.
Qed.

(** A non-empty string of decimal digits converts to the integer it
    denotes. *)
Lemma Number_decimal s :
  s <> "" -> JS.all_digits s = true ->
  JS.Number (Some s) = JS.of_Z (JS.decimal_value 0 s).
Proof.
  intros Hne H. unfold JS.Number, JS.string_to_number.
  rewrite (trim_digits s H), <- (read_decimal_digits s Hne H).
  destruct s as [|c r]; [congruence|].
  pose proof H as H'. simpl in H'. apply andb_prop in H' as [Hc Hr].
  digit_cases c Hc; try reflexivity.
  destruct r as [|c' r']; [reflexivity|].
  simpl in Hr. apply andb_prop in Hr as [Hc' _].
  digit_cases c' Hc'; reflexivity.
Qed.

(** ** Debug ports *)

Lemma or_else_source (debugArg debugBrkArg : option string) :
  JS.or_else debugBrkArg debugArg
  = if JS.truthy_opt debugBrkArg then debugBrkArg else debugArg.
Proof. reflexivity. Qed.

(** The port is the number the source string converts to when that number is
    truthy, and the build-mode default otherwise. *)
Lemma port_of_parseDebugPort debugArg debugBrkArg d isBuild id :
  port (parseDebugPort debugArg debugBrkArg d isBuild id)
  = let n := JS.Number (JS.or_else debugBrkArg debugArg) in
    if JS.truthy n then Some n else if isBuild then None else Some d.
Proof. unfold parseDebugPort; simpl. now destruct (JS.truthy _), isBuild. Qed.

Lemma break_of_parseDebugPort debugArg debugBrkArg d isBuild id :
  break (parseDebugPort debugArg debugBrkArg d isBuild id)
  = port_truthy (port (parseDebugPort debugArg debugBrkArg d isBuild id))
    && JS.truthy_opt debugBrkArg.
Proof. unfold parseDebugPort; simpl. now destruct (port_truthy _). Qed.

(** C1, as stated, fails. With an empty break-specific argument and the
    attach argument ["5000"], the specification's source is the empty string,
    which is no integer, so its port is the default 9229; the code takes the
    attach argument and answers 5000. With the source ["1.5"], no integer
    either, the code answers the number 1.5 and not the default. *)
Lemma parseDebugPort_source_counterexample :
  (port (parseDebugPort (Some "5000") (Some "") (JS.of_Z 9229) false None)
     = Some (JS.of_Z 5000)
   /\ Spec.negotiate_port (Some "5000") (Some "") (JS.of_Z 9229) false
     = Some (JS.of_Z 9229)
   /\ JS.of_Z 5000 <> JS.of_Z 9229)
  /\ (Spec.parse_integer "1.5" = None
      /\ port (parseDebugPort None (Some "1.5") (JS.of_Z 9229) false None)
         <> Spec.negotiate_port None (Some "1.5") (JS.of_Z 9229) false).
Proof. vm_compute. repeat split; try reflexivity; discriminate. Qed.

(** C1, amended: the source is the break-specific argument when it is
    present and not empty, else the attach argument; the port is the number
    [Number] converts the source to when that is neither [NaN] nor zero
    (integer or not) — for a string of decimal digits that denotes a
    non-zero integer, that integer — and otherwise — the source is no
    numeric literal, denotes zero, is empty, or both arguments are absent —
    the default port when [isBuild] is false and absent when it is true. The
    four vectors of the specification hold. *)
Theorem parseDebugPort_port debugArg debugBrkArg d isBuild id :
  let source := if JS.truthy_opt debugBrkArg then debugBrkArg else debugArg in
  port (parseDebugPort debugArg debugBrkArg d isBuild id)
  = (if JS.truthy (JS.Number source) then Some (JS.Number source)
     else if isBuild then None else Some d)
  /\ (forall s, source = Some s -> s <> "" -> JS.all_digits s = true ->
      JS.decimal_value 0 s <> 0 ->
      port (parseDebugPort debugArg debugBrkArg d isBuild id)
      = Some (JS.of_Z (JS.decimal_value 0 s)))
  /\ port (parseDebugPort None None d isBuild id)
     = (if isBuild then None else Some d)
  /\ parseDebugPort (Some "5000") None (JS.of_Z 9229) false None
     = {| port := Some (JS.of_Z 5000); break := false; debugId := None |}
  /\ parseDebugPort None (Some "5000") (JS.of_Z 9229) false None
     = {| port := Some (JS.of_Z 5000); break := true; debugId := None |}
  /\ parseDebugPort None None (JS.of_Z 9229) false None
     = {| port := Some (JS.of_Z 9229); break := false; debugId := None |}
  /\ parseDebugPort None None (JS.of_Z 9229) true None
     = {| port := None; break := false; debugId := None |}.
Proof.
  split; [|split; [|split]].
  - rewrite port_of_parseDebugPort, or_else_source. reflexivity.
  - intros s Hs Hne Hd Hv.
    rewrite port_of_parseDebugPort, or_else_source. cbv zeta.
    rewrite Hs, (Number_decimal s Hne Hd). now rewrite of_Z_truthy.
  - rewrite port_of_parseDebugPort. now destruct isBuild.
  - repeat split; vm_compute; reflexivity.
Qed.

Lemma parseDebugPort_port_witness :
  port (parseDebugPort (Some "8080") (Some "") (JS.of_Z 5870) true None)
  = Some (JS.of_Z 8080).
Proof.
  exact (proj1 (proj2 (parseDebugPort_port (Some "8080") (Some "")
                         (JS.of_Z 5870) true None))
           "8080" eq_refl ltac:(discriminate) eq_refl
           ltac:(vm_compute; discriminate)).
Defined.

(** C2, as stated, fails: with the attach argument ["5000"] and an empty
    break-specific argument a port is resolved and the break-specific
    argument is supplied, yet [break] is false. *)
Lemma parseDebugPort_break_counterexample :
  port (parseDebugPort (Some "5000") (Some "") (JS.of_Z 9229) false None)
  = Some (JS.of_Z 5000)
  /\ break (parseDebugPort (Some "5000") (Some "") (JS.of_Z 9229) false None)
     = false
  /\ Spec.negotiate_break
       (port (parseDebugPort (Some "5000") (Some "") (JS.of_Z 9229) false
                None))
       (Some "") = true.
Proof. vm_compute. repeat split; reflexivity. Qed.

(** C2, amended: [break] is true if and only if the returned port is truthy
    (present, not zero and not [NaN]) and the break-specific argument is
    present and not empty. A port that is not the default is always truthy,
    so with a truthy default port or in build mode "truthy" is the same as
    "present". When only the attach argument is given, [break] is false
    whatever the port. *)
Theorem parseDebugPort_break debugArg debugBrkArg d isBuild id :
  (break (parseDebugPort debugArg debugBrkArg d isBuild id) = true
   <-> port_truthy (port (parseDebugPort debugArg debugBrkArg d isBuild id))
       = true
       /\ JS.truthy_opt debugBrkArg = true)
  /\ (isBuild || JS.truthy d = true ->
      (port_truthy (port (parseDebugPort debugArg debugBrkArg d isBuild id))
       = true
       <-> port (parseDebugPort debugArg debugBrkArg d isBuild id) <> None))
  /\ break (parseDebugPort debugArg None d isBuild id) = false.
Proof.
  split; [|split].
  - rewrite break_of_parseDebugPort. apply andb_true_iff.
  - intros Hd. rewrite port_of_parseDebugPort. cbv zeta.
    destruct (JS.truthy (JS.Number _)) eqn:E; simpl.
    + rewrite E. split; [discriminate | reflexivity].
    + destruct isBuild; simpl in *.
      * split; [discriminate | congruence].
      * rewrite Hd. split; [discriminate | reflexivity].
  - rewrite break_of_parseDebugPort. simpl. apply andb_false_r.
Qed.

Lemma parseDebugPort_break_witness :
  break (parseDebugPort None (Some "5000") (JS.of_Z 9229) false None) = true
  /\ port (parseDebugPort None (Some "5000") (JS.of_Z 9229) false None)
     <> None.
Proof.
  split.
  - exact (proj2 (proj1 (parseDebugPort_break None (Some "5000")
                           (JS.of_Z 9229) false None))
             (conj eq_refl eq_refl)).
  - exact (proj1 (proj1 (proj2 (parseDebugPort_break None (Some "5000")
                                  (JS.of_Z 9229) false None))
                    eq_refl)
             eq_refl).
Defined.

(** C10, as stated, fails: "never the integer 0" does not hold when the
    default port is itself 0. With the attach argument ["0"], the default
    port 0 and [isBuild] false, the port is the default, which is the
    integer 0. *)
Lemma parseDebugPort_zero_default_counterexample :
  JS.or_else None (Some "0") = Some "0"
  /\ port (parseDebugPort (Some "0") None (JS.of_Z 0) false None)
     = Some (JS.of_Z 0).
Proof. vm_compute. split; reflexivity. Qed.

(** C10, amended: when the effective source string is ["0"] — the
    specification's source, or the one the code takes — the port is what it
    is for absent and for unparsable arguments: the default port when
    [isBuild] is false, absent when it is true. It is the integer 0 exactly
    when [isBuild] is false and the default port is 0, and it is neither
    zero nor [NaN] whenever the default port is not. [break] is false in
    build mode; otherwise it is true exactly when the default port is
    neither zero nor [NaN] and ["0"] came as the break-specific argument,
    which is what an unparsable argument gives, not what absent arguments
    give. ["0"] as the break-specific argument in build mode gives an absent
    port and [break] false. *)
Theorem parseDebugPort_zero debugArg debugBrkArg d isBuild id :
  Spec.effective_source debugArg debugBrkArg = Some "0"
  \/ JS.or_else debugBrkArg debugArg = Some "0" ->
  let r := parseDebugPort debugArg debugBrkArg d isBuild id in
  port r = (if isBuild then None else Some d)
  /\ port r = port (parseDebugPort None None d isBuild id)
  /\ port r = port (parseDebugPort (Some "no port") None d isBuild id)
  /\ (port r = Some (JS.of_Z 0) <-> isBuild = false /\ d = JS.of_Z 0)
  /\ (JS.truthy d = true ->
      forall n, port r = Some n -> JS.truthy n = true)
  /\ break r
     = (if isBuild then false else JS.truthy d && JS.truthy_opt debugBrkArg)
  /\ (debugBrkArg = Some "0" ->
      r = parseDebugPort debugArg (Some "no port") d isBuild id)
  /\ parseDebugPort debugArg (Some "0") d true id
     = {| port := None; break := false; debugId := id |}.
Proof.
  intros Hsrc r.
  assert (Hstr : JS.or_else debugBrkArg debugArg = Some "0").
  { destruct Hsrc as [Hsrc|Hsrc]; [|exact Hsrc].
    unfold Spec.effective_source in Hsrc.
    destruct debugBrkArg as [b|]; [injection Hsrc as ->; reflexivity|].
    exact Hsrc. }
  assert (Hport : port r = if isBuild then None else Some d).
  { subst r. rewrite port_of_parseDebugPort, Hstr. now destruct isBuild. }
  split; [exact Hport|].
  split; [rewrite Hport, port_of_parseDebugPort; now destruct isBuild|].
  split; [rewrite Hport, port_of_parseDebugPort; now destruct isBuild|].
  assert (Hbreak : break r
                   = port_truthy (port r) && JS.truthy_opt debugBrkArg)
    by apply break_of_parseDebugPort.
  split; [|split; [|split; [|split]]].
  - rewrite Hport. destruct isBuild.
    + split; [discriminate | intros [? _]; discriminate].
    + split; [intros [= ->]; now split | intros [_ ->]; reflexivity].
  - intros Hd n. rewrite Hport. destruct isBuild; [discriminate|].
    now intros [= <-].
  - rewrite Hbreak, Hport. now destruct isBuild.
  - intros ->. subst r. unfold parseDebugPort. simpl.
    now destruct isBuild.
  - unfold parseDebugPort. reflexivity.
Qed.

Lemma parseDebugPort_zero_witness :
  port (parseDebugPort (Some "0") None (JS.of_Z 5870) false None)
  = Some (JS.of_Z 5870).
Proof.
  exact (proj1 (parseDebugPort_zero (Some "0") None (JS.of_Z 5870) false None
                  (or_introl eq_refl))).
Defined.

(** ** Path arguments and the user data directory *)

Section PathArguments.

Variable rt : Runtime.

Definition with_env (proc : Process.t) (env : gmap string string)
  : Process.t :=
  {| Process.platform := Process.platform proc; Process.env := env;
     Process.cwd := Process.cwd proc |}.

(** The directory a relative argument is resolved against: [VSCODE_CWD] when
    it is set and not empty, else [process.cwd()]. *)
Definition effective_cwd (proc : Process.t) : string :=
  match Process.env proc !! "VSCODE_CWD" with
  | Some o => if JS.truthy_str o then o else Process.cwd proc
  | None => Process.cwd proc
  end.

Lemma effective_cwd_or_str proc :
  JS.or_str (Process.env proc !! "VSCODE_CWD") (Process.cwd proc)
  = effective_cwd proc.
Proof. reflexivity. Qed.

Lemma truthy_str_nonempty s : s <> "" -> JS.truthy_str s = true.
Proof. destruct s; [congruence | reflexivity]. Qed.

Lemma truthy_str_true s : JS.truthy_str s = true -> s <> "".
Proof. destruct s; [discriminate | congruence]. Qed.

Lemma parsePathArg_given a proc :
  a <> "" ->
  parsePathArg rt (Some a) proc
  = Some (if String.eqb (normalize (path rt) a)
               (resolve (path rt) (Process.cwd proc) [a])
          then resolve (path rt) (Process.cwd proc) [a]
          else resolve (path rt) (Process.cwd proc) [effective_cwd proc; a]).
Proof.
  intros Ha. unfold parsePathArg. rewrite (truthy_str_nonempty a Ha); simpl.
  rewrite effective_cwd_or_str. now destruct (String.eqb _ _).
Qed.

Lemma parsePathArg_truthy arg proc r :
  parsePathArg rt arg proc = Some r -> JS.truthy_str r = true.
Proof.
  unfold parsePathArg. destruct arg as [a|]; [|discriminate].
  destruct (JS.truthy_str a); simpl; [|discriminate].
  destruct (String.eqb _ _); intros [= <-]; apply resolve_truthy.
Qed.

(** C4, amended: an absent or empty argument gives absent; an argument that
    is not empty and already absolute ([normalize(arg)] equals [arg]
    resolved against the working directory) gives that resolved path,
    whatever the environment holds; a relative argument that is not empty
    is resolved against the override directory when the override is set and
    not empty, else against the working directory. The function returns on
    every input, with a path exactly when the argument is neither absent nor
    empty. *)
Theorem parsePathArg_cases (proc : Process.t) :
  parsePathArg rt None proc = None
  /\ parsePathArg rt (Some "") proc = None
  /\ (forall a, a <> "" ->
        normalize (path rt) a = resolve (path rt) (Process.cwd proc) [a] ->
        forall env,
          parsePathArg rt (Some a) (with_env proc env)
          = Some (resolve (path rt) (Process.cwd proc) [a]))
  /\ (forall a, a <> "" ->
        normalize (path rt) a <> resolve (path rt) (Process.cwd proc) [a] ->
        parsePathArg rt (Some a) proc
        = Some (resolve (path rt) (Process.cwd proc) [effective_cwd proc; a]))
  /\ (forall arg,
        is_Some (parsePathArg rt arg proc) <-> JS.truthy_opt arg = true).
Proof.
  split; [reflexivity | split; [reflexivity | split; [|split]]].
  - intros a Ha Habs env. rewrite (parsePathArg_given a _ Ha); simpl.
    rewrite Habs, String.eqb_refl. reflexivity.
  - intros a Ha Hrel. rewrite (parsePathArg_given a _ Ha).
    apply String.eqb_neq in Hrel. now rewrite Hrel.
  - intros [[|c a]|].
    + split; [intros [x Hx]; discriminate Hx | discriminate].
    + split; [reflexivity | intros _].
      rewrite parsePathArg_given by discriminate. eauto.
    + split; [intros [x Hx]; discriminate Hx | discriminate].
Qed.

(** C5, amended: the result is the resolved explicit [user-data-dir]
    argument when that argument is present and not empty, and otherwise the
    resolved default user data path of the platform; it is never absent and
    never empty. *)
Theorem parseUserDataDir_cases (args : ParsedArgs.t) (proc : Process.t) :
  (forall a, ParsedArgs.user_data_dir args = Some a -> a <> "" ->
     parsePathArg rt (Some a) proc = Some (parseUserDataDir rt args proc))
  /\ (JS.truthy_opt (ParsedArgs.user_data_dir args) = false ->
      parseUserDataDir rt args proc
      = resolve (path rt) (Process.cwd proc)
          [getDefaultUserDataPath rt (Process.platform proc)])
  /\ JS.truthy_str (parseUserDataDir rt args proc) = true.
Proof.
  unfold parseUserDataDir. repeat split.
  - intros a -> Ha.
    destruct (parsePathArg rt (Some a) proc) as [r|] eqn:E.
    + simpl. now rewrite (parsePathArg_truthy _ _ _ E).
    + rewrite parsePathArg_given in E by exact Ha. discriminate E.
  - intros Hno. destruct (ParsedArgs.user_data_dir args) as [a|]; simpl in *.
    + now rewrite Hno.
    + reflexivity.
  - destruct (parsePathArg rt _ proc) as [r|] eqn:E; simpl.
    + now rewrite (parsePathArg_truthy _ _ _ E), (parsePathArg_truthy _ _ _ E).
    + apply resolve_truthy.
Qed.

End PathArguments.

(** C4, as stated, fails on the empty argument: it is present, and it is
    relative in the claim's sense ([normalize("")] is ["."], not the working
    directory), so the claim resolves it against the working directory; the
    code returns absent. *)
Lemma parsePathArg_empty_counterexample :
  normalize Example.posix "" <> resolve Example.posix "/work" [""]
  /\ Spec.resolve_path_arg Example.posix (Some "") "/work" None = Some "/work"
  /\ parsePathArg Example.runtime (Some "") (Example.linux ∅) = None.
Proof. vm_compute. repeat split. discriminate. Qed.

Lemma parsePathArg_cases_witness :
  parsePathArg Example.runtime (Some "rel/dir")
    (Example.linux {["VSCODE_CWD" := "/orig"]})
  = Some "/orig/rel/dir".
Proof.
  exact (proj1 (proj2 (proj2 (proj2
           (parsePathArg_cases Example.runtime
              (Example.linux {["VSCODE_CWD" := "/orig"]})))))
           "rel/dir" ltac:(discriminate) ltac:(vm_compute; discriminate)).
Defined.

(** C5, as stated, fails on an empty [user-data-dir] argument: the argument
    is present, and resolved the way 4.1 says it is the working directory;
    the code falls back to the default of the platform. *)
Lemma parseUserDataDir_empty_counterexample :
  Spec.user_data_dir Example.posix (Some "") "/work" None
    "/home/user/.config/code-oss-dev" = "/work"
  /\ parseUserDataDir Example.runtime (Example.args (Some "") None)
       (Example.linux ∅)
     = "/home/user/.config/code-oss-dev".
Proof. vm_compute. split; reflexivity. Qed.

Lemma parseUserDataDir_cases_witness :
  parsePathArg Example.runtime (Some "/data/../srv/code") (Example.linux ∅)
  = Some (parseUserDataDir Example.runtime
            (Example.args (Some "/data/../srv/code") None) (Example.linux ∅))
  /\ parseUserDataDir Example.runtime (Example.args None None)
       (Example.linux ∅)
     = "/home/user/.config/code-oss-dev".
Proof.
  split.
  - exact (proj1 (parseUserDataDir_cases Example.runtime
                    (Example.args (Some "/data/../srv/code") None)
                    (Example.linux ∅))
             "/data/../srv/code" eq_refl ltac:(discriminate)).
  - exact (proj1 (proj2 (parseUserDataDir_cases Example.runtime
                           (Example.args None None) (Example.linux ∅)))
             eq_refl).
Defined.

(** ** IPC handles *)

Section IPCHandles.

Variable rt : Runtime.

Lemma substr0_length n s :
  (n <= String.length s)%nat -> String.length (JS.substr0 n s) = n.
Proof.
  revert s. induction n as [|n IH]; intros [|c s] Hn; simpl in *;
    try reflexivity; try lia.
  rewrite IH by lia. reflexivity.
Qed.

Lemma hashed_user_id_length name :
  String.length (JS.substr0 6 (sha256_hex rt name)) = 6%nat.
Proof. apply substr0_length. rewrite sha256_hex_length. lia. Qed.

Lemma hashed_user_id_truthy name :
  JS.truthy_str (JS.substr0 6 (sha256_hex rt name)) = true.
Proof.
  pose proof (hashed_user_id_length name) as H.
  destruct (JS.substr0 6 (sha256_hex rt name)); [discriminate H | reflexivity].
Qed.

(** The [-{hashedUserId}] segment of a pipe name: the first six characters of
    the hexadecimal SHA-256 digest of the user name, after a dash; nothing
    when the user name is not set or empty. *)
Definition user_segment (username : option string) : string :=
  match username with
  | Some name =>
      if JS.truthy_str name then "-" ++ JS.substr0 6 (sha256_hex rt name)
      else ""
  | None => ""
  end.

Lemma getUniqueUserId_win32 proc :
  Process.platform proc = "win32" ->
  (if JS.truthy_str (getUniqueUserId rt proc)
   then "-" ++ getUniqueUserId rt proc else "")
  = user_segment (Process.env proc !! "USERNAME").
Proof.
  intros Hp. unfold getUniqueUserId, user_segment. rewrite Hp.
  change (String.eqb "win32" "win32") with true. cbv iota.
  destruct (Process.env proc !! "USERNAME") as [name|]; [|reflexivity].
  destruct (JS.truthy_str name); cbn [negb]; [|reflexivity].
  now rewrite hashed_user_id_truthy.
Qed.

Lemma getNixIPCHandle_eq (proc : Process.t) (userDataPath type : string) :
  getNixIPCHandle rt proc userDataPath type
  = (if JS.truthy_opt (Process.env proc !! "XDG_RUNTIME_DIR") then
       join (path rt)
         [default "" (Process.env proc !! "XDG_RUNTIME_DIR");
          pkg_name (pkg rt) ++ "-" ++ pkg_version (pkg rt) ++ "-" ++ type
            ++ ".sock"]
     else
       join (path rt)
         [userDataPath; pkg_version (pkg rt) ++ "-" ++ type ++ ".sock"]).
Proof.
  unfold getNixIPCHandle.
  destruct (Process.env proc !! "XDG_RUNTIME_DIR") as [dir|]; simpl;
    [|reflexivity].
  now destruct (JS.truthy_str dir).
Qed.

(** C6, amended: the handle depends on the platform identifier first. On
    ["win32"] it is the pipe name
    [\\.\pipe\{applicationName}[-{hashedUserId}]-{version}-{type}-sock],
    with the product's application name, the hashed user id being the first
    six characters of the hexadecimal SHA-256 digest of [USERNAME], and the
    segment left out when [USERNAME] is not set or empty. On any other
    platform it is [{name}-{version}-{type}.sock], with the package's name,
    joined onto [XDG_RUNTIME_DIR] when that variable is set and not empty,
    and [{version}-{type}.sock] joined onto the user data directory
    otherwise. *)
Theorem getIPCHandle_cases (proc : Process.t) (userDataPath type : string) :
  getIPCHandle rt proc userDataPath type
  = (if String.eqb (Process.platform proc) "win32" then
       "\\.\pipe\"
         ++ (applicationName (product rt)
               ++ user_segment (Process.env proc !! "USERNAME"))
         ++ "-" ++ pkg_version (pkg rt) ++ "-" ++ type ++ "-sock"
     else if JS.truthy_opt (Process.env proc !! "XDG_RUNTIME_DIR") then
       join (path rt)
         [default "" (Process.env proc !! "XDG_RUNTIME_DIR");
          pkg_name (pkg rt) ++ "-" ++ pkg_version (pkg rt) ++ "-" ++ type
            ++ ".sock"]
     else
       join (path rt)
         [userDataPath; pkg_version (pkg rt) ++ "-" ++ type ++ ".sock"])
  /\ (forall name,
        String.length (JS.substr0 6 (sha256_hex rt name)) = 6%nat).
Proof.
  split; [|apply hashed_user_id_length].
  unfold getIPCHandle.
  destruct (String.eqb (Process.platform proc) "win32") eqn:Hp.
  - apply String.eqb_eq in Hp. unfold getWin32IPCHandle.
    now rewrite (getUniqueUserId_win32 proc Hp).
  - apply getNixIPCHandle_eq.
Qed.

End IPCHandles.

(** C6, as stated, fails when the runtime directory variable is set to the
    empty string: the claim names the socket inside that (empty) directory,
    the code falls back to the user data directory. *)
Lemma getIPCHandle_empty_runtime_dir_counterexample :
  Spec.nix_ipc_name Example.posix "code-oss-dev" "1.10.0" (Some "")
    "/data" "main" = "code-oss-dev-1.10.0-main.sock"
  /\ getIPCHandle Example.runtime
       (Example.linux {["XDG_RUNTIME_DIR" := ""]}) "/data" "main"
     = "/data/1.10.0-main.sock".
Proof. vm_compute. split; reflexivity. Qed.

(** The handles of the example runtime. *)
Example getIPCHandle_examples :
  getIPCHandle Example.runtime (Example.win32 {["USERNAME" := "bob"]})
    "/data" "main" = "\\.\pipe\code-oss-81b637-1.10.0-main-sock"
  /\ getIPCHandle Example.runtime (Example.win32 ∅) "/data" "shared"
     = "\\.\pipe\code-oss-1.10.0-shared-sock"
  /\ getIPCHandle Example.runtime
       (Example.linux {["XDG_RUNTIME_DIR" := "/run/user/1000"]}) "/data" "main"
     = "/run/user/1000/code-oss-dev-1.10.0-main.sock"
  /\ getIPCHandle Example.runtime (Example.linux ∅) "/data" "main"
     = "/data/1.10.0-main.sock".
Proof. vm_compute. repeat split; reflexivity. Qed.

(** ** The memoized getters *)

Section Memoization.

Variable rt : Runtime.

(** [this'] is [this] with more memo properties defined and nothing else
    changed. *)
Definition extends (this this' : EnvironmentService) : Prop :=
  _args this' = _args this /\ _execPath this' = _execPath this
  /\ machineUUID this' = machineUUID this /\ memo this ⊆ memo this'.

Lemma extends_refl this : extends this this.
Proof. repeat split; reflexivity. Qed.

Lemma extends_trans x y z : extends x y -> extends y z -> extends x z.
Proof.
  intros (A1 & E1 & U1 & M1) (A2 & E2 & U2 & M2).
  repeat split; try congruence. etrans; eassumption.
Qed.

(** A getter only ever adds memo properties. *)
Definition monotone {A} (m : Getter A) : Prop :=
  forall g this, extends this (snd (m g this)).

Lemma monotone_ret {A} (a : A) : monotone (ret a).
Proof. intros g this. apply extends_refl. Qed.

Lemma monotone_globals : monotone globals.
Proof. intros g this. apply extends_refl. Qed.

Lemma monotone_args_field : monotone args_field.
Proof. intros g this. apply extends_refl. Qed.

Lemma monotone_execPath : monotone execPath.
Proof. intros g this. apply extends_refl. Qed.

Lemma monotone_bind {A B} (m : Getter A) (k : A -> Getter B) :
  monotone m -> (forall a, monotone (k a)) -> monotone (bind m k).
Proof.
  intros Hm Hk g this. unfold bind.
  specialize (Hm g this). destruct (m g this) as [a this']; simpl in Hm.
  eapply extends_trans; [exact Hm | apply Hk].
Qed.

Lemma monotone_memoize {A} `{Cacheable A} key (fn : Getter A) :
  monotone fn -> monotone (memoize key fn).
Proof.
  intros Hfn g this. unfold memoize.
  destruct (memo this !! key) as [v|] eqn:Hk; simpl; [apply extends_refl|].
  specialize (Hfn g this). destruct (fn g this) as [a this']; simpl in *.
  destruct Hfn as (HA & HE & HU & HM). repeat split; try assumption.
  simpl. now apply insert_subseteq_r.
Qed.

Ltac monotone_step :=
  first
    [ apply monotone_memoize
    | apply monotone_bind; [|intro]
    | apply monotone_ret
    | apply monotone_globals
    | apply monotone_args_field
    | apply monotone_execPath
    | match goal with
      | |- monotone (match ?x with _ => _ end) => destruct x
      end ].

Lemma monotone_access p : monotone (access rt p).
Proof. destruct p; autounfold with getters; repeat monotone_step. Qed.

Lemma extends_reads l this : extends this (reads rt l this).
Proof.
  revert this. induction l as [|[p g] l IH]; intros this; simpl.
  - apply extends_refl.
  - eapply extends_trans; [apply monotone_access | apply IH].
Qed.

(** After a read of a memoized getter its key holds the value returned... *)
Lemma memoize_defines {A} `{Cacheable A} key (fn : Getter A) g this :
  exists v, memo (snd (memoize key fn g this)) !! key = Some v
            /\ dec v = fst (memoize key fn g this).
Proof.
  unfold memoize. destruct (memo this !! key) as [v|] eqn:Hk; simpl.
  - eauto.
  - destruct (fn g this) as [a this']; simpl.
    exists (enc a). split; [apply lookup_insert_eq | apply dec_enc].
Qed.

(** ... and a key that holds a value answers every later read. *)
Lemma memoize_cached {A} `{Cacheable A} key (fn : Getter A) g this v :
  memo this !! key = Some v -> memoize key fn g this = (dec v, this).
Proof. intros Hk. unfold memoize. now rewrite Hk. Qed.

Lemma boxed_memoize_stable {A} `{Cacheable A} key (fn : Getter A) g this :
  exists v,
    memo (snd (boxed (memoize key fn) g this)) !! key = Some v
    /\ forall g' this', memo this' !! key = Some v ->
         fst (boxed (memoize key fn) g' this')
         = fst (boxed (memoize key fn) g this).
Proof.
  destruct (memoize_defines key fn g this) as (v & Hv & Hd).
  exists v. unfold boxed, bind, ret.
  destruct (memoize key fn g this) as [a this1]; simpl in *. split; [exact Hv|].
  intros g' this' Hk. rewrite (memoize_cached key fn g' this' v Hk); simpl.
  now rewrite Hd.
Qed.

Lemma access_memoized_stable p g this :
  memoized p = true ->
  exists v,
    memo (snd (access rt p g this)) !! memoKey p = Some v
    /\ forall g' this', memo this' !! memoKey p = Some v ->
         fst (access rt p g' this') = fst (access rt p g this).
Proof.
  destruct p; try discriminate; intros _; apply boxed_memoize_stable.
Qed.

(** Once read, a memoized getter keeps its value through any later reads,
    whatever the ambient state has become. *)
Lemma memoized_read_stable p this g1 l g2 :
  memoized p = true ->
  fst (access rt p g2 (reads rt l (snd (access rt p g1 this))))
  = fst (access rt p g1 this).
Proof.
  intros Hp. destruct (access_memoized_stable p g1 this Hp) as (v & Hv & Hs).
  apply Hs.
  destruct (extends_reads l (snd (access rt p g1 this))) as (_ & _ & _ & Hsub).
  eapply lookup_weaken; eassumption.
Qed.

End Memoization.

(** ** Reads under an unchanged ambient state *)

Section FixedGlobals.

Variable rt : Runtime.
Variable a : ParsedArgs.t.
Variable exe : string.
Variable g : Globals.

(** What property [p] of a fresh instance reads as. *)
Definition derived (p : Property) : Value :=
  fst (access rt p g (fresh a exe)).

(** Every memo property the instance holds is the value derived from the
    constructor parameters and [g]. *)
Definition consistent (this : EnvironmentService) : Prop :=
  _args this = a /\ _execPath this = exe
  /\ forall p v, memoized p = true ->
       memo this !! memoKey p = Some v -> v = derived p.

(** On every consistent instance the getter returns [x] and leaves the
    instance consistent. *)
Definition yields {A} (m : Getter A) (x : A) : Prop :=
  forall this, consistent this ->
    fst (m g this) = x /\ consistent (snd (m g this)).

Lemma consistent_fresh : consistent (fresh a exe).
Proof.
  repeat split. intros p v _ Hv. simpl in Hv.
  rewrite lookup_empty in Hv. discriminate Hv.
Qed.

Lemma memoKey_inj p q :
  memoized p = true -> memoized q = true -> memoKey p = memoKey q -> p = q.
Proof.
  destruct p; try discriminate; intros _;
    destruct q; try discriminate; intros _ Hk;
    first [reflexivity | discriminate Hk].
Qed.

Lemma yields_ret {A} (x : A) : yields (ret x) x.
Proof. intros this Hc. now split. Qed.

Lemma yields_globals : yields globals g.
Proof. intros this Hc. now split. Qed.

Lemma yields_args_field : yields args_field a.
Proof. intros this Hc. split; [apply Hc | exact Hc]. Qed.

Lemma yields_execPath : yields execPath exe.
Proof. intros this Hc. split; [apply Hc | exact Hc]. Qed.

Lemma yields_bind {A B} (m : Getter A) (k : A -> Getter B) x y :
  yields m x -> yields (k x) y -> yields (bind m k) y.
Proof.
  intros Hm Hk this Hc. unfold bind.
  destruct (Hm this Hc) as [Hx Hc']. destruct (m g this) as [x' this'].
  simpl in *. subst x'. now apply Hk.
Qed.

Lemma yields_boxed {A} `{Cacheable A} (m : Getter A) x :
  yields m x -> yields (boxed m) (enc x).
Proof.
  intros Hm. unfold boxed. eapply yields_bind; [exact Hm | apply yields_ret].
Qed.

Lemma yields_memoize {A} `{Cacheable A} p key (fn : Getter A) x :
  memoized p = true -> memoKey p = key ->
  access rt p = boxed (memoize key fn) ->
  yields fn x -> yields (memoize key fn) x.
Proof.
  intros Hp Hkey Hacc Hfn.
  assert (Hd : derived p = enc x).
  { unfold derived. rewrite Hacc. unfold boxed, bind, ret, memoize. simpl.
    rewrite lookup_empty.
    destruct (Hfn _ consistent_fresh) as [Hx _].
    destruct (fn g (fresh a exe)) as [x' this']. simpl in *. now subst. }
  intros this Hc. unfold memoize.
  destruct (memo this !! key) as [v|] eqn:Hk; simpl.
  - split; [|exact Hc]. destruct Hc as (_ & _ & Hm).
    rewrite (Hm p v Hp) by now rewrite Hkey.
    rewrite Hd. apply dec_enc.
  - destruct (Hfn this Hc) as [Hx (HA & HE & Hm)].
    destruct (fn g this) as [x' this']. simpl in *. subst x'.
    split; [reflexivity|]. repeat split; try assumption.
    intros q v Hq Hv. simpl in Hv.
    destruct (decide (memoKey q = key)) as [Heq|Hne].
    + rewrite Heq, lookup_insert_eq in Hv. injection Hv as <-.
      rewrite <- Hd. f_equal. apply memoKey_inj; congruence.
    + rewrite lookup_insert_ne in Hv by congruence. now apply Hm.
Qed.

Ltac yields_memo p :=
  eapply (yields_memoize p); [reflexivity | reflexivity | reflexivity |].

Ltac yields_step :=
  first
    [ eapply yields_bind; [apply yields_args_field|]
    | eapply yields_bind; [apply yields_globals|]
    | apply yields_ret ].

(** The value of each getter, from the constructor parameters and [g]. *)

Definition udp : string := parseUserDataDir rt a (process g).

Definition built : bool :=
  negb (JS.truthy_opt (Process.env (process g) !! "VSCODE_DEV")).

Lemma yields_isBuilt : yields isBuilt built.
Proof. unfold isBuilt. repeat yields_step. Qed.

Lemma yields_appRoot :
  yields (appRoot rt) (dirname (path rt) (toUrl_fsPath g)).
Proof. yields_memo PappRoot. repeat yields_step. Qed.

Lemma yields_userHome : yields userHome (os_homedir g).
Proof. yields_memo PuserHome. repeat yields_step. Qed.

Lemma yields_userDataPath : yields (userDataPath rt) udp.
Proof. yields_memo PuserDataPath. repeat yields_step. Qed.

Lemma yields_appSettingsHome :
  yields (appSettingsHome rt) (join (path rt) [udp; "User"]).
Proof.
  yields_memo PappSettingsHome.
  eapply yields_bind; [apply yields_userDataPath | apply yields_ret].
Qed.

Lemma yields_appSettingsPath :
  yields (appSettingsPath rt)
    (join (path rt) [join (path rt) [udp; "User"]; "settings.json"]).
Proof.
  yields_memo PappSettingsPath.
  eapply yields_bind; [apply yields_appSettingsHome | apply yields_ret].
Qed.

Lemma yields_appKeybindingsPath :
  yields (appKeybindingsPath rt)
    (join (path rt) [join (path rt) [udp; "User"]; "keybindings.json"]).
Proof.
  yields_memo PappKeybindingsPath.
  eapply yields_bind; [apply yields_appSettingsHome | apply yields_ret].
Qed.

Lemma yields_isExtensionDevelopment :
  yields isExtensionDevelopment
    (JS.truthy_opt (ParsedArgs.extensionDevelopmentPath a)).
Proof. yields_memo PisExtensionDevelopment. repeat yields_step. Qed.

Lemma yields_backupHome :
  yields (backupHome rt) (join (path rt) [udp; "Backups"]).
Proof.
  yields_memo PbackupHome.
  eapply yields_bind; [apply yields_userDataPath | apply yields_ret].
Qed.

Lemma yields_backupWorkspacesPath :
  yields (backupWorkspacesPath rt)
    (join (path rt) [join (path rt) [udp; "Backups"]; "workspaces.json"]).
Proof.
  yields_memo PbackupWorkspacesPath.
  eapply yields_bind; [apply yields_backupHome | apply yields_ret].
Qed.

Lemma yields_workspacesHome :
  yields (workspacesHome rt) (join (path rt) [udp; "Workspaces"]).
Proof.
  yields_memo PworkspacesHome.
  eapply yields_bind; [apply yields_userDataPath | apply yields_ret].
Qed.

Lemma yields_extensionsPath :
  yields (extensionsPath rt)
    (JS.or_str
       (JS.or_else
          (parsePathArg rt (ParsedArgs.extensions_dir a) (process g))
          (Process.env (process g) !! "VSCODE_EXTENSIONS"))
       (join (path rt)
          [os_homedir g; dataFolderName (product rt); "extensions"])).
Proof.
  yields_memo PextensionsPath. do 2 yields_step.
  destruct (JS.or_else _ _) as [dir|]; simpl.
  - destruct (JS.truthy_str dir); [apply yields_ret|].
    eapply yields_bind; [apply yields_userHome | apply yields_ret].
  - eapply yields_bind; [apply yields_userHome | apply yields_ret].
Qed.

Lemma yields_extensionDevelopmentPath :
  yields (extensionDevelopmentPath rt)
    (normalize_if_given rt (ParsedArgs.extensionDevelopmentPath a)).
Proof. yields_memo PextensionDevelopmentPath. repeat yields_step. Qed.

Lemma yields_extensionTestsPath :
  yields (extensionTestsPath rt)
    (normalize_if_given rt (ParsedArgs.extensionTestsPath a)).
Proof. yields_memo PextensionTestsPath. repeat yields_step. Qed.

Lemma yields_debugExtensionHost :
  yields debugExtensionHost (parseExtensionHostPort a built).
Proof.
  yields_memo PdebugExtensionHost. yields_step.
  eapply yields_bind; [apply yields_isBuilt | apply yields_ret].
Qed.

Lemma yields_debugSearch :
  yields debugSearch (parseSearchPort a built).
Proof.
  yields_memo PdebugSearch. yields_step.
  eapply yields_bind; [apply yields_isBuilt | apply yields_ret].
Qed.

Lemma yields_profileStartup :
  yields profileStartup
    (match ParsedArgs.prof_startup a with
     | Some true =>
         Some (Process.env (process g) !! "VSCODE_PROFILES_PREFIX",
               os_homedir g)
     | _ => None
     end).
Proof.
  yields_memo PprofileStartup. do 2 yields_step.
  destruct (ParsedArgs.prof_startup a) as [[|]|]; apply yields_ret.
Qed.

Lemma yields_mainIPCHandle :
  yields (mainIPCHandle rt) (getIPCHandle rt (process g) udp "main").
Proof.
  yields_memo PmainIPCHandle.
  eapply yields_bind; [apply yields_userDataPath | repeat yields_step].
Qed.

Lemma yields_sharedIPCHandle :
  yields (sharedIPCHandle rt) (getIPCHandle rt (process g) udp "shared").
Proof.
  yields_memo PsharedIPCHandle.
  eapply yields_bind; [apply yields_userDataPath | repeat yields_step].
Qed.

Lemma yields_nodeCachedDataDir :
  yields (nodeCachedDataDir rt)
    (if built
     then Some (join (path rt) [udp; "CachedData"; commit (product rt)])
     else None).
Proof.
  yields_memo PnodeCachedDataDir.
  eapply yields_bind; [apply yields_isBuilt|].
  destruct built; [|apply yields_ret].
  eapply yields_bind; [apply yields_userDataPath | apply yields_ret].
Qed.

(** Every property, read on a consistent instance, is the derived value. *)
Lemma yields_access p : yields (access rt p) (derived p).
Proof.
  assert (H : exists x, yields (access rt p) x).
  { destruct p; simpl; eexists; apply yields_boxed;
      first
        [ apply yields_appRoot | apply yields_userHome
        | apply yields_userDataPath | apply yields_appSettingsHome
        | apply yields_appSettingsPath | apply yields_appKeybindingsPath
        | apply yields_isExtensionDevelopment | apply yields_backupHome
        | apply yields_backupWorkspacesPath | apply yields_workspacesHome
        | apply yields_extensionsPath | apply yields_extensionDevelopmentPath
        | apply yields_extensionTestsPath | apply yields_debugExtensionHost
        | apply yields_debugSearch | apply yields_profileStartup
        | apply yields_mainIPCHandle | apply yields_sharedIPCHandle
        | apply yields_nodeCachedDataDir | apply yields_isBuilt
        | apply yields_execPath | apply yields_args_field
        | autounfold with getters; solve [repeat yields_step] ]. }
  destruct H as [x Hx].
  replace (derived p) with x; [exact Hx|].
  symmetry. apply (Hx _ consistent_fresh).
Qed.

Lemma consistent_reads ps this :
  consistent this -> consistent (reads rt (under g ps) this).
Proof.
  revert this. induction ps as [|p ps IH]; intros this Hc; simpl; [exact Hc|].
  apply IH. now apply yields_access.
Qed.

Lemma read_after_reads ps p this :
  consistent this ->
  fst (access rt p g (reads rt (under g ps) this)) = derived p.
Proof. intros Hc. apply yields_access. now apply consistent_reads. Qed.

End FixedGlobals.

(** ** The constructor and the machine identity *)

Section Identity.

Variable rt : Runtime.

(** The instance once the constructor has read [this.userDataPath]. *)
Definition prepared (a : ParsedArgs.t) (exe : string) (g : Globals)
  : EnvironmentService :=
  snd (userDataPath rt g (fresh a exe)).

Lemma userDataPath_fresh a exe g :
  userDataPath rt g (fresh a exe)
  = (parseUserDataDir rt a (process g), prepared a exe g).
Proof.
  unfold prepared.
  destruct (yields_userDataPath rt a exe g _ (consistent_fresh rt a exe g))
    as [Hv _].
  destruct (userDataPath rt g (fresh a exe)) as [v this]. simpl in *.
  now rewrite Hv.
Qed.

Lemma consistent_prepared a exe g : consistent rt a exe g (prepared a exe g).
Proof. apply yields_userDataPath, consistent_fresh. Qed.

Lemma consistent_set_machineUUID a exe g this u :
  consistent rt a exe g this ->
  consistent rt a exe g (set_machineUUID this u).
Proof. intros Hc. exact Hc. Qed.

(** The world after the read of [p]... *)
Definition after_read (p : string) (w : World) : World := emit (EvRead p) w.

(** ... after an identifier was drawn from it ... *)
Definition after_draw (w : World) : World :=
  {| fs := fs w; uuids := uuids w; uuid_next := S (uuid_next w);
     log := log w |}.

(** ... after [u] was stored at [p] ... *)
Definition after_store (p u : string) (w : World) : World :=
  {| fs := {| files := <[p := u]> (files (fs w));
              read_faults := read_faults (fs w);
              write_faults := write_faults (fs w) |};
     uuids := uuids w; uuid_next := uuid_next w;
     log := log w ++ [EvWrite p u] |}.

(** The file system a failed write of [u] to [p] leaves. *)
Definition after_fault (ft : write_fault) (p u : string) (f : FileSystem)
  : FileSystem :=
  match ft with
  | OpenFails _ => f
  | WriteFails _ written => store f p (JS.substr0 written u)
  end.

(** ... and after the write of [u] to [p] failed with [ft]. *)
Definition after_failed_store (ft : write_fault) (p u : string) (w : World)
  : World :=
  {| fs := after_fault ft p u (fs w);
     uuids := uuids w; uuid_next := uuid_next w;
     log := log w ++ [EvWrite p u] |}.

(** The three ways through the constructor. *)
Lemma constructor_cases a exe g w :
  let p := machineIdPath rt a g in
  let u := uuids w (uuid_next w) in
  constructor rt a exe g w
  = match read_file (fs w) p with
    | Return content =>
        (Return (set_machineUUID (prepared a exe g) content), after_read p w)
    | Throw _ =>
        match write_faults (fs w) !! p with
        | None =>
            (Return (set_machineUUID (prepared a exe g) u),
             after_store p u (after_draw (after_read p w)))
        | Some ft =>
            (Return (set_machineUUID (prepared a exe g) u),
             emit (EvWarn "Could not store machine ID")
               (after_failed_store ft p u (after_draw (after_read p w))))
        end
    end.
Proof.
  intros p u. unfold constructor. rewrite userDataPath_fresh.
  fold (machineIdPath rt a g). fold p.
  unfold try_catch, and_then, readFileSync, pure, generateUuid,
    writeFileSync, console_warn, write_file.
  destruct (read_file (fs w) p) as [content|e]; [reflexivity|].
  cbn [fs emit uuids uuid_next log]. fold u.
  destruct (write_faults (fs w) !! p) as [[e'|e' written]|]; reflexivity.
Qed.

(** C7: the constructor returns on every input. When the identity file
    cannot be read, whatever the error, the next generated identifier
    becomes [machineUUID] and a write of it to [{userDataPath}/machineid] is
    attempted right after the failed read; when the write fails as well, at
    whatever stage, the only further effect is the warning and
    [machineUUID] is still the generated identifier. The file system is then
    left as it was when the file could not be opened; when the failure came
    after the file was opened, the file holds what was written before it and
    nothing else has changed. *)
Theorem constructor_read_failure a exe g w :
  let p := join (path rt) [parseUserDataDir rt a (process g); "machineid"] in
  let u := uuids w (uuid_next w) in
  (exists this w', constructor rt a exe g w = (Return this, w'))
  /\ (forall e, read_file (fs w) p = Throw e ->
      exists this w',
        constructor rt a exe g w = (Return this, w')
        /\ machineUUID this = Some u
        /\ (write_faults (fs w) !! p = None ->
            log w' = (log w ++ [EvRead p; EvWrite p u])%list
            /\ files (fs w') !! p = Some u)
        /\ (forall ft, write_faults (fs w) !! p = Some ft ->
            log w' = (log w ++ [EvRead p; EvWrite p u;
                                EvWarn "Could not store machine ID"])%list
            /\ match ft with
               | OpenFails _ => fs w' = fs w
               | WriteFails _ written =>
                   fs w' = store (fs w) p (JS.substr0 written u)
               end)).
Proof.
  intros p u. pose proof (constructor_cases a exe g w) as Hc.
  fold (machineIdPath rt a g) in p. cbv zeta in Hc. fold p u in Hc. split.
  - destruct (read_file (fs w) p); [eauto|].
    destruct (write_faults (fs w) !! p); eauto.
  - intros e He. rewrite He in Hc.
    destruct (write_faults (fs w) !! p) as [ft|] eqn:Hw;
      do 2 eexists; (split; [exact Hc|]); (split; [reflexivity|]); split.
    + discriminate.
    + intros ft' [= <-]. simpl. rewrite <- !app_assoc.
      split; [reflexivity|]. destruct ft; reflexivity.
    + intros _. simpl. rewrite <- !app_assoc. split; [reflexivity|].
      apply lookup_insert_eq.
    + discriminate.
Qed.

(** C8, amended: when the first run could not read the identity file and
    its write succeeded, a second run against the same user data path that
    can read the file returns the identity of the first run, which is the
    content of the file, and generates nothing; when the file is removed
    between the runs, the second run returns the next generated
    identifier. *)
Theorem machine_identity_two_runs a exe g w this1 w1 a2 exe2 g2 :
  let p := join (path rt) [parseUserDataDir rt a (process g); "machineid"] in
  constructor rt a exe g w = (Return this1, w1) ->
  parseUserDataDir rt a2 (process g2) = parseUserDataDir rt a (process g) ->
  (forall e, read_file (fs w) p = Throw e ->
     write_faults (fs w) !! p = None ->
     read_faults (fs w1) !! p = None ->
     exists this2 w2,
       constructor rt a2 exe2 g2 w1 = (Return this2, w2)
       /\ machineUUID this2 = machineUUID this1
       /\ machineUUID this2 = files (fs w1) !! p
       /\ uuid_next w2 = uuid_next w1)
  /\ (exists this2 w2,
       constructor rt a2 exe2 g2 (unlink p w1) = (Return this2, w2)
       /\ machineUUID this2 = Some (uuids w1 (uuid_next w1))).
Proof.
  intros p H1 Hsame.
  assert (Hp : machineIdPath rt a2 g2 = p).
  { unfold machineIdPath. now rewrite Hsame. }
  split.
  - intros e He Hw Hr.
    pose proof (constructor_cases a exe g w) as Hc. cbv zeta in Hc.
    fold (machineIdPath rt a g) in p. fold p in Hc.
    rewrite He, Hw, H1 in Hc. injection Hc as -> ->. simpl in Hr.
    pose proof (constructor_cases a2 exe2 g2
                  (after_store p (uuids w (uuid_next w))
                     (after_draw (after_read p w)))) as Hc2.
    cbv zeta in Hc2. rewrite Hp in Hc2.
    assert (Hread : read_file
                      (fs (after_store p (uuids w (uuid_next w))
                             (after_draw (after_read p w)))) p
                    = Return (uuids w (uuid_next w))).
    { unfold read_file. simpl. now rewrite Hr, lookup_insert_eq. }
    rewrite Hread in Hc2. do 2 eexists. split; [exact Hc2|].
    repeat split. simpl. now rewrite lookup_insert_eq.
  - pose proof (constructor_cases a2 exe2 g2 (unlink p w1)) as Hc2.
    cbv zeta in Hc2. rewrite Hp in Hc2.
    assert (Hread : exists e, read_file (fs (unlink p w1)) p = Throw e).
    { unfold read_file. simpl.
      destruct (read_faults (fs w1) !! p); [eauto|].
      rewrite lookup_delete_eq. eauto. }
    destruct Hread as [e He]. rewrite He in Hc2.
    destruct (write_faults (fs (unlink p w1)) !! p);
      do 2 eexists; (split; [exact Hc2 | reflexivity]).
Qed.

End Identity.

Lemma example_run a g w :
  constructor Example.runtime a Example.exe g w
  = (Return (Example.instance a g w), Example.next_world a g w).
Proof.
  unfold Example.instance, Example.next_world.
  pose proof (constructor_cases Example.runtime a Example.exe g w) as Hc.
  cbv zeta in Hc.
  destruct (read_file _ _); [|destruct (_ !! _)]; now rewrite Hc.
Qed.

Lemma constructor_read_failure_witness :
  exists this w',
    constructor Example.runtime Example.no_args Example.exe Example.packaged
      (Example.world Example.read_only_disk) = (Return this, w')
    /\ machineUUID this = Some "0a3f9c52-7b1e-4d6a-9c2f-1e5b8a7d4c30"
    /\ log w' = [EvRead Example.machineid;
                 EvWrite Example.machineid
                   "0a3f9c52-7b1e-4d6a-9c2f-1e5b8a7d4c30";
                 EvWarn "Could not store machine ID"].
Proof.
  destruct (proj2 (constructor_read_failure Example.runtime
                     Example.no_args Example.exe Example.packaged
                     (Example.world Example.read_only_disk))
              ENOENT eq_refl)
    as (this & w' & Hc & Hu & _ & Hfail).
  exists this, w'. split; [exact Hc | split; [exact Hu|]].
  exact (proj1 (Hfail (OpenFails EACCES) eq_refl)).
Defined.

(** C8, as stated, fails when the identity file can be written but not
    read: the first run cannot read it, generates an identifier and stores
    it successfully; the second run cannot read it either and generates
    another one. *)
Lemma machine_identity_unreadable_counterexample :
  log (Example.next_world Example.no_args Example.packaged
         (Example.world Example.write_only_file))
  = [EvRead Example.machineid;
     EvWrite Example.machineid "0a3f9c52-7b1e-4d6a-9c2f-1e5b8a7d4c30"]
  /\ files (fs (Example.next_world Example.no_args Example.packaged
                  (Example.world Example.write_only_file)))
       !! Example.machineid
     = Some "0a3f9c52-7b1e-4d6a-9c2f-1e5b8a7d4c30"
  /\ machineUUID (Example.instance Example.no_args Example.packaged
                    (Example.world Example.write_only_file))
     = Some "0a3f9c52-7b1e-4d6a-9c2f-1e5b8a7d4c30"
  /\ machineUUID (Example.instance Example.no_args Example.packaged
                    (Example.next_world Example.no_args Example.packaged
                       (Example.world Example.write_only_file)))
     = Some "d41c8e9b-2f60-4a17-b3e5-9a0c6f2d7e81"
  /\ machineUUID (Example.instance Example.no_args Example.packaged
                    (Example.world Example.write_only_file))
     <> machineUUID (Example.instance Example.no_args Example.packaged
                       (Example.next_world Example.no_args Example.packaged
                          (Example.world Example.write_only_file))).
Proof. vm_compute. repeat split; try reflexivity. discriminate. Qed.

Lemma machine_identity_two_runs_witness :
  machineUUID (Example.instance Example.no_args Example.dev
                 (Example.next_world Example.no_args Example.packaged
                    (Example.world Example.empty_disk)))
  = machineUUID (Example.instance Example.no_args Example.packaged
                   (Example.world Example.empty_disk)).
Proof.
  destruct (proj1 (machine_identity_two_runs Example.runtime
                     Example.no_args Example.exe Example.packaged
                     (Example.world Example.empty_disk) _ _
                     Example.no_args Example.exe Example.dev
                     (example_run _ _ _) eq_refl)
              ENOENT eq_refl eq_refl eq_refl)
    as (this2 & w2 & H2 & Hsame & _).
  rewrite example_run in H2. injection H2 as <- _. exact Hsame.
Defined.

(** ** The derived paths and the stability of the properties *)

Section Derived.

Variable rt : Runtime.

Lemma constructor_consistent a exe g w this w' :
  constructor rt a exe g w = (Return this, w') ->
  consistent rt a exe g this
  /\ exists l, log w' = (log w ++ EvRead (machineIdPath rt a g) :: l)%list.
Proof.
  intros H. pose proof (constructor_cases rt a exe g w) as Hc.
  cbv zeta in Hc. rewrite H in Hc.
  destruct (read_file _ _); [|destruct (_ !! _)]; injection Hc as -> ->;
    (split; [apply consistent_set_machineUUID, consistent_prepared|]);
    simpl; rewrite <- ?app_assoc; eauto.
Qed.

(** C3, amended: after construction, and after any further reads under the
    same ambient state, the settings home, the settings and keybindings
    files, the backup home and its workspaces file, the workspaces home,
    the cached data directory (in a built run; it is absent otherwise), the
    socket files (off Windows, when no runtime directory is set) and the
    machine-identity file are fixed segments joined onto the user data
    directory. The default [extensionsPath] — no [extensions-dir] argument
    and no [VSCODE_EXTENSIONS] variable — is the product's data folder name
    and ["extensions"] joined onto the home directory of the user, not onto
    the user data directory. *)
Theorem derived_state_paths a exe g w this w' ps :
  constructor rt a exe g w = (Return this, w') ->
  forall U now,
    U = parseUserDataDir rt a (process g) ->
    now = reads rt (under g ps) this ->
    fst (userDataPath rt g now) = U
    /\ fst (appSettingsHome rt g now) = join (path rt) [U; "User"]
    /\ fst (appSettingsPath rt g now)
       = join (path rt) [join (path rt) [U; "User"]; "settings.json"]
    /\ fst (appKeybindingsPath rt g now)
       = join (path rt) [join (path rt) [U; "User"]; "keybindings.json"]
    /\ fst (backupHome rt g now) = join (path rt) [U; "Backups"]
    /\ fst (backupWorkspacesPath rt g now)
       = join (path rt) [join (path rt) [U; "Backups"]; "workspaces.json"]
    /\ fst (workspacesHome rt g now) = join (path rt) [U; "Workspaces"]
    /\ fst (nodeCachedDataDir rt g now)
       = (if fst (isBuilt g now)
          then Some (join (path rt) [U; "CachedData"; commit (product rt)])
          else None)
    /\ (String.eqb (Process.platform (process g)) "win32" = false ->
        JS.truthy_opt (Process.env (process g) !! "XDG_RUNTIME_DIR") = false ->
        fst (mainIPCHandle rt g now)
        = join (path rt) [U; pkg_version (pkg rt) ++ "-main.sock"]
        /\ fst (sharedIPCHandle rt g now)
           = join (path rt) [U; pkg_version (pkg rt) ++ "-shared.sock"])
    /\ (exists l,
          log w' = (log w ++ EvRead (join (path rt) [U; "machineid"]) :: l)%list)
    /\ (JS.truthy_opt (ParsedArgs.extensions_dir a) = false ->
        JS.truthy_opt (Process.env (process g) !! "VSCODE_EXTENSIONS") = false ->
        fst (extensionsPath rt g now)
        = join (path rt)
            [os_homedir g; dataFolderName (product rt); "extensions"]).
Proof.
  intros H U now -> ->.
  destruct (constructor_consistent _ _ _ _ _ _ H) as [Hc Hlog].
  pose proof (consistent_reads rt a exe g ps this Hc) as Hnow.
  repeat match goal with |- _ /\ _ => split end.
  - now apply (yields_userDataPath rt a exe g).
  - now apply (yields_appSettingsHome rt a exe g).
  - now apply (yields_appSettingsPath rt a exe g).
  - now apply (yields_appKeybindingsPath rt a exe g).
  - now apply (yields_backupHome rt a exe g).
  - now apply (yields_backupWorkspacesPath rt a exe g).
  - now apply (yields_workspacesHome rt a exe g).
  - rewrite (proj1 (yields_isBuilt rt a exe g _ Hnow)).
    now apply (yields_nodeCachedDataDir rt a exe g).
  - intros Hp Hx.
    rewrite (proj1 (yields_mainIPCHandle rt a exe g _ Hnow)).
    rewrite (proj1 (yields_sharedIPCHandle rt a exe g _ Hnow)).
    unfold getIPCHandle. rewrite Hp, !getNixIPCHandle_eq, Hx. now split.
  - exact Hlog.
  - intros Ha He.
    rewrite (proj1 (yields_extensionsPath rt a exe g _ Hnow)).
    assert (Hdir : parsePathArg rt (ParsedArgs.extensions_dir a) (process g)
                   = None).
    { destruct (ParsedArgs.extensions_dir a) as [d|]; [|reflexivity].
      unfold parsePathArg. simpl in Ha. now rewrite Ha. }
    rewrite Hdir. unfold JS.or_else; simpl.
    destruct (Process.env (process g) !! "VSCODE_EXTENSIONS") as [v|];
      simpl in *; [now rewrite He | reflexivity].
Qed.

(** C9, amended: while the ambient state is unchanged, every property of a
    constructed instance reads the same on every access, in whatever order
    the properties are read; and a memoized property, once read, keeps its
    value on every later access even when the environment variables have
    been changed in between. ([isBuilt], which is not memoized, follows the
    environment.) The machine identity and the constructor parameters of an
    instance never change. *)
Theorem property_reads_stable :
  (forall a exe g w this w' ps qs p,
     constructor rt a exe g w = (Return this, w') ->
     fst (access rt p g (reads rt (under g ps) this))
     = fst (access rt p g (reads rt (under g qs) this)))
  /\ (forall p this g1 l g2,
        memoized p = true ->
        fst (access rt p g2 (reads rt l (snd (access rt p g1 this))))
        = fst (access rt p g1 this))
  /\ (forall this l,
        machineUUID (reads rt l this) = machineUUID this
        /\ _args (reads rt l this) = _args this
        /\ _execPath (reads rt l this) = _execPath this).
Proof.
  split; [|split].
  - intros a exe g w this w' ps qs p H.
    destruct (constructor_consistent _ _ _ _ _ _ H) as [Hc _].
    now rewrite !(read_after_reads rt a exe g _ p this Hc).
  - intros p this g1 l g2 Hp. now apply memoized_read_stable.
  - intros this l. destruct (extends_reads rt l this) as (HA & HE & HU & _).
    now repeat split.
Qed.

End Derived.

(** C3, as stated, fails for the extensions default: two runs with the same
    user data directory and different home directories have different
    extensions paths, so no one segment joined onto the user data directory
    gives both. *)
Lemma extensionsPath_counterexample :
  fst (userDataPath Example.runtime Example.packaged
         (Example.instance (Example.args (Some "/data") None)
            Example.packaged (Example.world Example.empty_disk))) = "/data"
  /\ fst (userDataPath Example.runtime Example.guest
            (Example.instance (Example.args (Some "/data") None)
               Example.guest (Example.world Example.empty_disk))) = "/data"
  /\ fst (extensionsPath Example.runtime Example.packaged
            (Example.instance (Example.args (Some "/data") None)
               Example.packaged (Example.world Example.empty_disk)))
     = "/home/user/.vscode-oss/extensions"
  /\ fst (extensionsPath Example.runtime Example.guest
            (Example.instance (Example.args (Some "/data") None)
               Example.guest (Example.world Example.empty_disk)))
     = "/home/guest/.vscode-oss/extensions"
  /\ ~ (exists seg,
          "/home/user/.vscode-oss/extensions"
          = join Example.posix ["/data"; seg]
          /\ "/home/guest/.vscode-oss/extensions"
             = join Example.posix ["/data"; seg]).
Proof.
  repeat split; try (vm_compute; reflexivity).
  intros (seg & H1 & H2). rewrite <- H2 in H1. discriminate H1.
Qed.

Lemma derived_state_paths_witness :
  fst (appSettingsPath Example.runtime Example.packaged
         (Example.instance Example.no_args Example.packaged
            (Example.world Example.empty_disk)))
  = "/home/user/.config/code-oss-dev/User/settings.json"
  /\ fst (mainIPCHandle Example.runtime Example.packaged
            (Example.instance Example.no_args Example.packaged
               (Example.world Example.empty_disk)))
     = "/home/user/.config/code-oss-dev/1.10.0-main.sock"
  /\ fst (extensionsPath Example.runtime Example.packaged
            (Example.instance Example.no_args Example.packaged
               (Example.world Example.empty_disk)))
     = "/home/user/.vscode-oss/extensions".
Proof.
  pose proof (derived_state_paths Example.runtime Example.no_args Example.exe
                Example.packaged (Example.world Example.empty_disk) _ _ []
                (example_run _ _ _) _ _ eq_refl eq_refl)
    as (_ & _ & Hs & _ & _ & _ & _ & _ & Hipc & _ & Hext).
  split; [exact Hs | split].
  - exact (proj1 (Hipc eq_refl eq_refl)).
  - exact (Hext eq_refl eq_refl).
Defined.

(** C9, as stated, fails for [isBuilt]: read twice on one instance, with
    [VSCODE_DEV] set in between, it is first true and then false. *)
Lemma isBuilt_counterexample :
  fst (access Example.runtime PisBuilt Example.packaged
         (Example.instance Example.no_args Example.packaged
            (Example.world Example.empty_disk)))
  = VBoolean true
  /\ fst (access Example.runtime PisBuilt Example.dev
            (snd (access Example.runtime PisBuilt Example.packaged
                    (Example.instance Example.no_args Example.packaged
                       (Example.world Example.empty_disk)))))
     = VBoolean false.
Proof. vm_compute. split; reflexivity. Qed.

Lemma property_reads_stable_witness :
  fst (access Example.runtime PdebugExtensionHost Example.dev
         (reads Example.runtime [(PisBuilt, Example.dev)]
            (snd (access Example.runtime PdebugExtensionHost Example.packaged
                    (Example.instance Example.no_args Example.packaged
                       (Example.world Example.empty_disk))))))
  = fst (access Example.runtime PdebugExtensionHost Example.packaged
           (Example.instance Example.no_args Example.packaged
              (Example.world Example.empty_disk)))
  /\ fst (access Example.runtime PisBuilt Example.packaged
            (reads Example.runtime
               (under Example.packaged [PextensionsPath; PappRoot])
               (Example.instance Example.no_args Example.packaged
                  (Example.world Example.empty_disk))))
     = fst (access Example.runtime PisBuilt Example.packaged
              (reads Example.runtime (under Example.packaged [])
                 (Example.instance Example.no_args Example.packaged
                    (Example.world Example.empty_disk)))).
Proof.
  split.
  - exact (proj1 (proj2 (property_reads_stable Example.runtime))
             PdebugExtensionHost _ Example.packaged [(PisBuilt, Example.dev)]
             Example.dev eq_refl).
  - exact (proj1 (property_reads_stable Example.runtime) Example.no_args
             Example.exe Example.packaged (Example.world Example.empty_disk)
             _ _ [PextensionsPath; PappRoot] [] PisBuilt
             (example_run _ _ _)).
Defined.


(** * Further properties of the module *)

(** ** Debug ports: the break argument and the two call sites *)

(** A break-specific argument that is not empty and that [Number] converts
    to [NaN] or zero (["abc"], ["0"], ...) hides the attach argument, however
    good that one is: a development run answers the default port, with
    [break] on when that port is truthy, and a built run answers no port
    and [break] off. *)
Theorem parseDebugPort_unusable_break_argument debugArg s d isBuild id :
  s <> "" ->
  JS.truthy (JS.Number (Some s)) = false ->
  parseDebugPort debugArg (Some s) d isBuild id
  = {| port := if isBuild then None else Some d;
       break := negb isBuild && JS.truthy d;
       debugId := id |}.
Proof.
  intros Hs Hn. unfold parseDebugPort, JS.or_else. simpl JS.truthy_opt.
  rewrite (truthy_str_nonempty s Hs), Hn.
  destruct isBuild; simpl; [reflexivity|]. now destruct (JS.truthy d).
Qed.

Lemma parseDebugPort_unusable_break_argument_witness :
  parseDebugPort (Some "5000") (Some "abc") (JS.of_Z 5870) false None
  = {| port := Some (JS.of_Z 5870); break := true; debugId := None |}.
Proof.
  exact (parseDebugPort_unusable_break_argument (Some "5000") "abc"
           (JS.of_Z 5870) false None ltac:(discriminate) eq_refl).
Defined.

Lemma default_ports_truthy :
  JS.truthy (JS.of_Z 5870) = true /\ JS.truthy (JS.of_Z 5876) = true.
Proof. split; reflexivity. Qed.

Lemma port_truthy_of_truthy_default debugArg debugBrkArg d isBuild id n :
  JS.truthy d = true ->
  port (parseDebugPort debugArg debugBrkArg d isBuild id) = Some n ->
  JS.truthy n = true.
Proof.
  intros Hd. rewrite port_of_parseDebugPort. cbv zeta.
  destruct (JS.truthy (JS.Number _)) eqn:E.
  - now intros [= <-].
  - destruct isBuild; [discriminate | now intros [= <-]].
Qed.

Lemma dev_port_and_break debugArg debugBrkArg d id :
  JS.truthy d = true ->
  port (parseDebugPort debugArg debugBrkArg d false id) <> None
  /\ break (parseDebugPort debugArg debugBrkArg d false id)
     = JS.truthy_opt debugBrkArg.
Proof.
  intros Hd. rewrite break_of_parseDebugPort, port_of_parseDebugPort.
  cbv zeta. destruct (JS.truthy (JS.Number _)) eqn:E; simpl.
  - rewrite E. now split.
  - rewrite Hd. now split.
Qed.

(** The extension host and the search process share [parseDebugPort] with
    the defaults 5870 and 5876. For both, a port that is present is never
    zero or [NaN]; in a development run a port is always present and
    [break] is on exactly when the break-specific argument is present and
    not empty, whatever it holds; in a built run without debug arguments
    there is no port and no break. Only the extension host carries the
    [debugId] of the command line. *)
Theorem debug_ports_of_the_two_processes (a : ParsedArgs.t) (isBuild : bool) :
  (debugId (parseExtensionHostPort a isBuild) = ParsedArgs.debugId a
   /\ debugId (parseSearchPort a isBuild) = None)
  /\ (forall n,
        port (parseExtensionHostPort a isBuild) = Some n
        \/ port (parseSearchPort a isBuild) = Some n ->
        JS.truthy n = true)
  /\ (port (parseExtensionHostPort a false) <> None
      /\ break (parseExtensionHostPort a false)
         = JS.truthy_opt (ParsedArgs.debugBrkPluginHost a)
      /\ port (parseSearchPort a false) <> None
      /\ break (parseSearchPort a false)
         = JS.truthy_opt (ParsedArgs.debugBrkSearch a))
  /\ (ParsedArgs.debugPluginHost a = None ->
      ParsedArgs.debugBrkPluginHost a = None ->
      port (parseExtensionHostPort a isBuild)
      = (if isBuild then None else Some (JS.of_Z 5870))
      /\ break (parseExtensionHostPort a isBuild) = false)
  /\ (ParsedArgs.debugSearch a = None ->
      ParsedArgs.debugBrkSearch a = None ->
      port (parseSearchPort a isBuild)
      = (if isBuild then None else Some (JS.of_Z 5876))
      /\ break (parseSearchPort a isBuild) = false).
Proof.
  destruct default_ports_truthy as [H70 H76].
  unfold parseExtensionHostPort, parseSearchPort.
  split; [split; reflexivity|]. split; [|split; [|split]].
  - intros n [H|H].
    + exact (port_truthy_of_truthy_default _ _ _ _ _ _ H70 H).
    + exact (port_truthy_of_truthy_default _ _ _ _ _ _ H76 H).
  - destruct (dev_port_and_break (ParsedArgs.debugPluginHost a)
                (ParsedArgs.debugBrkPluginHost a) _ (ParsedArgs.debugId a) H70)
      as [P1 B1].
    destruct (dev_port_and_break (ParsedArgs.debugSearch a)
                (ParsedArgs.debugBrkSearch a) _ None H76) as [P2 B2].
    now repeat split.
  - intros -> ->. rewrite break_of_parseDebugPort, port_of_parseDebugPort.
    split; [now destruct isBuild | apply andb_false_r].
  - intros -> ->. rewrite break_of_parseDebugPort, port_of_parseDebugPort.
    split; [now destruct isBuild | apply andb_false_r].
Qed.

Lemma debug_ports_of_the_two_processes_witness :
  port (parseExtensionHostPort Example.no_args true) = None
  /\ port (parseSearchPort Example.no_args false) = Some (JS.of_Z 5876).
Proof.
  split.
  - exact (proj1 (proj1 (proj2 (proj2 (proj2
             (debug_ports_of_the_two_processes Example.no_args true))))
             eq_refl eq_refl)).
  - exact (proj1 (proj2 (proj2 (proj2 (proj2
             (debug_ports_of_the_two_processes Example.no_args false))))
             eq_refl eq_refl)).
Defined.

(** ** Path arguments under the POSIX [path] module *)

Lemma posix_absolute_nonempty a : Posix.is_absolute a = true -> a <> "".
Proof. destruct a; [discriminate | congruence]. Qed.

Lemma posix_resolve_loop_absolute ps : forall cwd acc,
  Posix.is_absolute cwd = true ->
  snd (Posix.resolve_loop (ps ++ [cwd]) acc) = true.
Proof.
  induction ps as [|p ps IH]; intros cwd acc Hcwd; simpl.
  - destruct cwd as [|c r]; [discriminate|]. simpl in *. now rewrite Hcwd.
  - destruct (String.eqb p ""); [now apply IH|].
    destruct (Posix.is_absolute p); [reflexivity | now apply IH].
Qed.

Lemma posix_resolve_absolute cwd segs :
  Posix.is_absolute cwd = true ->
  Posix.is_absolute (Posix.resolve cwd segs) = true.
Proof.
  intros Hcwd. unfold Posix.resolve.
  pose proof (posix_resolve_loop_absolute (rev segs) cwd "" Hcwd) as H.
  destruct (Posix.resolve_loop _ _) as [resolvedPath b]. simpl in H. subst b.
  now destruct (JS.truthy_str _).
Qed.

Lemma posix_resolve_absolute_argument cwd front a :
  Posix.is_absolute a = true ->
  Posix.resolve cwd (front ++ [a]) = Posix.resolve "" [a].
Proof.
  intros Ha. unfold Posix.resolve. rewrite rev_app_distr. simpl.
  destruct a as [|c r]; [discriminate|]. simpl in Ha. simpl. now rewrite Ha.
Qed.

(** On POSIX an absolute argument is resolved on its own: the result does
    not depend on the working directory nor on [VSCODE_CWD] — also when the
    argument ends in a slash, which makes the comparison of
    [normalize(arg)] with the resolved path fail and sends the argument
    down the branch for relative paths. *)
Theorem parsePathArg_absolute_argument (rt : Runtime) (a : string)
    (proc : Process.t) :
  path rt = Example.posix ->
  Posix.is_absolute a = true ->
  parsePathArg rt (Some a) proc = Some (Posix.resolve "" [a])
  /\ Posix.is_absolute (Posix.resolve "" [a]) = true.
Proof.
  intros Hp Ha. split.
  - rewrite parsePathArg_given by now apply posix_absolute_nonempty.
    rewrite Hp. cbn [resolve Example.posix].
    rewrite (posix_resolve_absolute_argument _ [] a Ha).
    rewrite (posix_resolve_absolute_argument _ [effective_cwd proc] a Ha).
    now destruct (String.eqb _ _).
  - unfold Posix.resolve. simpl.
    destruct a as [|c r]; [discriminate|]. simpl in Ha. simpl. rewrite Ha.
    now destruct (JS.truthy_str _).
Qed.

Lemma parsePathArg_absolute_argument_witness :
  parsePathArg Example.runtime (Some "/srv/data/")
    (Example.linux {["VSCODE_CWD" := "/orig"]})
  = Some "/srv/data".
Proof.
  exact (proj1 (parsePathArg_absolute_argument Example.runtime "/srv/data/"
                  (Example.linux {["VSCODE_CWD" := "/orig"]})
                  eq_refl eq_refl)).
Defined.

Lemma posix_join_with_slash_absolute u rest :
  Posix.is_absolute u = true ->
  Posix.is_absolute (Posix.join_with_slash (u :: rest)) = true.
Proof.
  intros Hu. destruct u as [|c r]; [discriminate|].
  destruct rest; simpl in *; exact Hu.
Qed.

Lemma posix_normalize_absolute s :
  Posix.is_absolute s = true -> Posix.is_absolute (Posix.normalize s) = true.
Proof.
  intros Hs. unfold Posix.normalize.
  destruct s as [|c r]; [discriminate|].
  change (String.eqb (String c r) "") with false. cbv iota zeta.
  now rewrite Hs.
Qed.

Lemma posix_join_absolute u rest :
  Posix.is_absolute u = true ->
  Posix.is_absolute (Posix.join (u :: rest)) = true.
Proof.
  intros Hu. unfold Posix.join. simpl filter.
  destruct u as [|c r] eqn:Eu; [discriminate|]. simpl JS.truthy_str.
  cbv iota. apply posix_normalize_absolute.
  now apply posix_join_with_slash_absolute.
Qed.

(** On POSIX, when the working directory is absolute, every path
    [parsePathArg] returns is absolute, the user data directory is
    absolute — whether it comes from the argument, resolved against a
    relative [VSCODE_CWD] or not, or from the default — and so is everything
    joined onto it, such as the path of the machine-identity file. *)
Theorem resolved_paths_are_absolute (rt : Runtime) (a : ParsedArgs.t)
    (g : Globals) :
  path rt = Example.posix ->
  Posix.is_absolute (Process.cwd (process g)) = true ->
  (forall arg r, parsePathArg rt arg (process g) = Some r ->
                 Posix.is_absolute r = true)
  /\ Posix.is_absolute (parseUserDataDir rt a (process g)) = true
  /\ (forall segs,
        Posix.is_absolute
          (join (path rt) (parseUserDataDir rt a (process g) :: segs)) = true)
  /\ Posix.is_absolute (machineIdPath rt a g) = true.
Proof.
  intros Hp Hcwd.
  assert (Harg : forall arg r, parsePathArg rt arg (process g) = Some r ->
                               Posix.is_absolute r = true).
  { intros arg r. unfold parsePathArg. rewrite Hp. cbn [resolve Example.posix].
    destruct arg as [x|]; [|discriminate].
    destruct (negb (JS.truthy_str x)); [discriminate|].
    destruct (String.eqb _ _); intros [= <-];
      now apply posix_resolve_absolute. }
  assert (Hudp : Posix.is_absolute (parseUserDataDir rt a (process g)) = true).
  { unfold parseUserDataDir.
    destruct (parsePathArg rt _ (process g)) as [r|] eqn:E; simpl.
    - rewrite (parsePathArg_truthy rt _ _ _ E). now apply (Harg _ _ E).
    - rewrite Hp. cbn [resolve Example.posix].
      now apply posix_resolve_absolute. }
  assert (Hjoin : forall segs,
            Posix.is_absolute
              (join (path rt) (parseUserDataDir rt a (process g) :: segs))
            = true).
  { intros segs. rewrite Hp at 1. cbn [join Example.posix].
    now apply posix_join_absolute. }
  repeat split; try assumption. apply Hjoin.
Qed.

Lemma resolved_paths_are_absolute_witness :
  Posix.is_absolute
    (parseUserDataDir Example.runtime (Example.args (Some "profile") None)
       (Example.linux {["VSCODE_CWD" := "relative/launch/dir"]})) = true.
Proof.
  exact (proj1 (proj2 (resolved_paths_are_absolute Example.runtime
                         (Example.args (Some "profile") None)
                         (Example.globals
                            (Example.linux
                               {["VSCODE_CWD" := "relative/launch/dir"]}))
                         eq_refl eq_refl))).
Defined.

(** ** IPC handles: what tells two handles apart *)

Lemma append_inv_head (s x y : string) : s ++ x = s ++ y -> x = y.
Proof.
  induction s as [|c s IH]; intros H; [exact H|].
  change (String c (s ++ x) = String c (s ++ y)) in H.
  injection H as H. now apply IH.
Qed.

Lemma append_inv_tail (t : string) : forall x y, x ++ t = y ++ t -> x = y.
Proof.
  induction x as [|c x IH]; intros [|d y] H.
  - reflexivity.
  - apply (f_equal String.length) in H. rewrite !length_append in H.
    simpl in H. lia.
  - apply (f_equal String.length) in H. rewrite !length_append in H.
    simpl in H. lia.
  - change (String c (x ++ t) = String d (y ++ t)) in H.
    injection H as -> H. f_equal. now apply IH.
Qed.

(** On Windows the handle is formed from the product, the user name, the
    version and the type alone: it does not depend on the user data
    directory (nor on [XDG_RUNTIME_DIR]), so instances started with
    different user data directories name the same pipe; and two different
    types never give the same handle. *)
Theorem getIPCHandle_win32 (rt : Runtime) (proc : Process.t) :
  Process.platform proc = "win32" ->
  (forall udp udp' type,
     getIPCHandle rt proc udp type = getIPCHandle rt proc udp' type)
  /\ (forall env udp type,
        env !! "USERNAME" = Process.env proc !! "USERNAME" ->
        getIPCHandle rt (with_env proc env) udp type
        = getIPCHandle rt proc udp type)
  /\ (forall udp udp' type type',
        getIPCHandle rt proc udp type = getIPCHandle rt proc udp' type' ->
        type = type').
Proof.
  intros Hp.
  assert (Hw : forall udp type,
            getIPCHandle rt proc udp type = getWin32IPCHandle rt proc type).
  { intros. unfold getIPCHandle. now rewrite Hp. }
  split; [|split].
  - intros. now rewrite !Hw.
  - intros env udp type He. unfold getIPCHandle. simpl. rewrite Hp. simpl.
    unfold getWin32IPCHandle, getUniqueUserId. simpl. rewrite Hp. simpl.
    now rewrite He.
  - intros udp udp' type type'. rewrite !Hw. unfold getWin32IPCHandle.
    intros H. do 5 apply append_inv_head in H.
    now apply append_inv_tail in H.
Qed.

Lemma getIPCHandle_win32_witness :
  getIPCHandle Example.runtime (Example.win32 {["USERNAME" := "bob"]})
    "/data/one" "main"
  = getIPCHandle Example.runtime (Example.win32 {["USERNAME" := "bob"]})
      "/data/two" "main".
Proof.
  exact (proj1 (getIPCHandle_win32 Example.runtime
                  (Example.win32 {["USERNAME" := "bob"]}) eq_refl)
           "/data/one" "/data/two" "main").
Defined.

(** A file name: no slash in it. *)
Fixpoint slash_free (s : string) : bool :=
  match s with
  | EmptyString => true
  | String c r => negb (Ascii.eqb c Posix.slash) && slash_free r
  end.

Lemma append_assoc (x y z : string) : (x ++ y) ++ z = x ++ (y ++ z).
Proof.
  induction x as [|c x IH]; [reflexivity|].
  change (String c ((x ++ y) ++ z) = String c (x ++ (y ++ z))).
  now rewrite IH.
Qed.

Lemma slash_free_append x y :
  slash_free x = true -> slash_free y = true -> slash_free (x ++ y) = true.
Proof.
  intros Hx Hy. induction x as [|c x IH]; [exact Hy|].
  change (slash_free (String c (x ++ y)) = true). simpl in *.
  apply andb_prop in Hx as [Hc Hx]. now rewrite Hc, IH.
Qed.

Lemma posix_segments_nonempty s : Posix.segments s <> [].
Proof.
  destruct s as [|c r]; simpl; [discriminate|].
  destruct (Ascii.eqb c Posix.slash); [discriminate|].
  destruct (Posix.segments r); discriminate.
Qed.

Lemma posix_segments_slash_free s :
  slash_free s = true -> Posix.segments s = [s].
Proof.
  induction s as [|c r IH]; simpl; [reflexivity|]. intros H.
  apply andb_prop in H as [Hc Hr]. apply negb_true_iff in Hc.
  now rewrite Hc, (IH Hr).
Qed.

Lemma posix_segments_append_slash d n :
  Posix.segments (d ++ String Posix.slash n)
  = (Posix.segments d ++ Posix.segments n)%list.
Proof.
  induction d as [|c r IH].
  - change (Posix.segments (String Posix.slash n)
            = ([""] ++ Posix.segments n)%list).
    simpl. reflexivity.
  - change (Posix.segments (String c (r ++ String Posix.slash n))
            = (Posix.segments (String c r) ++ Posix.segments n)%list).
    simpl. destruct (Ascii.eqb c Posix.slash).
    + now rewrite IH.
    + rewrite IH. pose proof (posix_segments_nonempty r) as Hne.
      destruct (Posix.segments r); [congruence | reflexivity].
Qed.

Lemma posix_ends_with_slash_append d n :
  n <> "" -> Posix.ends_with_slash (d ++ n) = Posix.ends_with_slash n.
Proof.
  intros Hn. induction d as [|c r IH]; [reflexivity|].
  change (Posix.ends_with_slash (String c (r ++ n))
          = Posix.ends_with_slash n).
  simpl. destruct (r ++ n) eqn:E; [|exact IH].
  destruct r; [change ("" ++ n) with n in E; congruence | discriminate E].
Qed.

Lemma posix_ends_with_slash_free n :
  slash_free n = true -> Posix.ends_with_slash n = false.
Proof.
  induction n as [|c r IH]; [reflexivity|]. simpl. intros H.
  apply andb_prop in H as [Hc Hr]. apply negb_true_iff in Hc.
  destruct r; [exact Hc | now apply IH].
Qed.

Lemma posix_join_with_slash_snoc l n :
  Posix.join_with_slash (l ++ [n])
  = match l with
    | [] => n
    | _ => Posix.join_with_slash l ++ String Posix.slash n
    end.
Proof.
  induction l as [|x l IH]; [reflexivity|].
  change ((x :: l) ++ [n])%list with (x :: (l ++ [n]))%list.
  destruct l as [|y l]; [reflexivity|].
  change (x ++ String Posix.slash (Posix.join_with_slash ((y :: l) ++ [n]))
          = (x ++ String Posix.slash (Posix.join_with_slash (y :: l)))
              ++ String Posix.slash n).
  rewrite IH, append_assoc. reflexivity.
Qed.

Lemma posix_push_file allow st n :
  n <> "" -> n <> "." -> n <> ".." ->
  Posix.push_segment allow st n = n :: st.
Proof.
  intros H0 H1 H2. unfold Posix.push_segment.
  apply String.eqb_neq in H0, H1, H2. now rewrite H0, H1, H2.
Qed.

Lemma posix_normalizeString_file allow d n :
  n <> "" -> n <> "." -> n <> ".." -> slash_free n = true ->
  Posix.normalizeString (d ++ String Posix.slash n) allow
  = match rev (fold_left (Posix.push_segment allow) (Posix.segments d) []) with
    | [] => n
    | l => Posix.join_with_slash l ++ String Posix.slash n
    end.
Proof.
  intros H0 H1 H2 Hf. unfold Posix.normalizeString.
  rewrite posix_segments_append_slash, (posix_segments_slash_free n Hf).
  rewrite fold_left_app. simpl fold_left.
  rewrite posix_push_file by assumption.
  simpl rev. rewrite posix_join_with_slash_snoc.
  now destruct (rev _).
Qed.

Lemma posix_join_two d n :
  n <> "" ->
  Posix.join [d; n]
  = Posix.normalize
      (match d with
       | EmptyString => n
       | String _ _ => d ++ String Posix.slash n
       end).
Proof. destruct d, n; try congruence; reflexivity. Qed.

(** A file name joined onto a directory is the name after a prefix that only
    the directory decides. *)
Lemma posix_join_file dir :
  exists pre, forall n,
    n <> "" -> n <> "." -> n <> ".." -> slash_free n = true ->
    Posix.join [dir; n] = pre ++ n.
Proof.
  destruct dir as [|c r].
  - exists "". intros n H0 H1 H2 Hf. rewrite (posix_join_two "" n H0).
    unfold Posix.normalize, Posix.normalizeString.
    apply String.eqb_neq in H0 as H0'. rewrite H0'.
    rewrite (posix_segments_slash_free n Hf). simpl fold_left.
    rewrite posix_push_file by assumption. simpl.
    rewrite (posix_ends_with_slash_free n Hf), H0'.
    destruct n as [|c r]; [congruence|]. simpl in Hf.
    apply andb_prop in Hf as [Hc _]. apply negb_true_iff in Hc.
    simpl. now rewrite Hc.
  - set (dir := String c r).
    exists ((if Posix.is_absolute dir then "/" else "")
            ++ match rev (fold_left
                            (Posix.push_segment (negb (Posix.is_absolute dir)))
                            (Posix.segments dir) []) with
               | [] => ""
               | l => Posix.join_with_slash l ++ "/"
               end).
    intros n H0 H1 H2 Hf. rewrite (posix_join_two dir n H0).
    unfold dir at 1. cbv iota. fold dir.
    unfold Posix.normalize.
    change (String.eqb (dir ++ String Posix.slash n) "") with false.
    cbv iota zeta.
    change (Posix.is_absolute (dir ++ String Posix.slash n))
      with (Posix.is_absolute dir).
    rewrite (posix_normalizeString_file _ dir n H0 H1 H2 Hf).
    rewrite (posix_ends_with_slash_append dir (String Posix.slash n))
      by discriminate.
    assert (Hend : Posix.ends_with_slash (String Posix.slash n) = false).
    { destruct n as [|c' r']; [congruence|].
      change (Posix.ends_with_slash (String c' r') = false).
      now apply posix_ends_with_slash_free. }
    rewrite Hend, andb_false_r.
    assert (Hlen : forall x : string, String.eqb (x ++ String Posix.slash n) ""
                                      = false).
    { intros x. apply String.eqb_neq. intros E.
      apply (f_equal String.length) in E. rewrite length_append in E.
      simpl in E. lia. }
    apply String.eqb_neq in H0 as H0'.
    destruct (rev _) as [|x l'].
    + rewrite H0'. simpl andb. cbv iota.
      destruct (Posix.is_absolute dir); reflexivity.
    + rewrite Hlen. simpl andb. cbv iota.
      change (String Posix.slash n) with ("/" ++ n).
      destruct (Posix.is_absolute dir);
      rewrite ?append_assoc; reflexivity.
Qed.

Lemma long_name_is_a_file n :
  (2 < String.length n)%nat -> n <> "" /\ n <> "." /\ n <> "..".
Proof. intros H. repeat split; intros ->; simpl in H; lia. Qed.

Lemma posix_join_file_inj dir n n' :
  (2 < String.length n)%nat -> (2 < String.length n')%nat ->
  slash_free n = true -> slash_free n' = true ->
  Posix.join [dir; n] = Posix.join [dir; n'] -> n = n'.
Proof.
  intros Hl Hl' Hf Hf' H. destruct (posix_join_file dir) as [pre Hpre].
  destruct (long_name_is_a_file n Hl) as (H0 & H1 & H2).
  destruct (long_name_is_a_file n' Hl') as (H0' & H1' & H2').
  rewrite (Hpre n), (Hpre n') in H by assumption.
  now apply append_inv_head in H.
Qed.

(** Off Windows, with the POSIX [path] module and a package name, a version
    and types without a slash, two different types never give the same
    handle — next to the runtime directory as well as next to the user
    data directory, whatever these directories are. So the main and the
    shared handle of an instance differ. *)
Theorem getIPCHandle_posix_types (rt : Runtime) (proc : Process.t)
    (udp type type' : string) :
  path rt = Example.posix ->
  Process.platform proc <> "win32" ->
  slash_free (pkg_name (pkg rt)) = true ->
  slash_free (pkg_version (pkg rt)) = true ->
  slash_free type = true -> slash_free type' = true ->
  getIPCHandle rt proc udp type = getIPCHandle rt proc udp type' ->
  type = type'.
Proof.
  intros Hp Hplat Hname Hver Ht Ht'. unfold getIPCHandle.
  apply String.eqb_neq in Hplat. rewrite Hplat, !getNixIPCHandle_eq.
  rewrite Hp. cbn [join Example.posix].
  assert (Hsock : forall t, slash_free t = true ->
            slash_free (pkg_version (pkg rt) ++ "-" ++ t ++ ".sock") = true
            /\ (2 < String.length
                      (pkg_version (pkg rt) ++ "-" ++ t ++ ".sock"))%nat).
  { intros t Hf. split.
    - repeat apply slash_free_append; auto.
    - rewrite !length_append. simpl. lia. }
  assert (Hsock' : forall t, slash_free t = true ->
            slash_free (pkg_name (pkg rt) ++ "-" ++ pkg_version (pkg rt)
                          ++ "-" ++ t ++ ".sock") = true
            /\ (2 < String.length
                      (pkg_name (pkg rt) ++ "-" ++ pkg_version (pkg rt)
                         ++ "-" ++ t ++ ".sock"))%nat).
  { intros t Hf. split.
    - repeat apply slash_free_append; auto.
    - rewrite !length_append. simpl. lia. }
  destruct (JS.truthy_opt _); intros H.
  - apply posix_join_file_inj in H; try (now apply Hsock').
    do 4 apply append_inv_head in H. now apply append_inv_tail in H.
  - apply posix_join_file_inj in H; try (now apply Hsock).
    do 2 apply append_inv_head in H. now apply append_inv_tail in H.
Qed.

Lemma getIPCHandle_posix_types_witness :
  getIPCHandle Example.runtime
    (Example.linux {["XDG_RUNTIME_DIR" := "/run/user/1000"]}) "/data" "main"
  <> getIPCHandle Example.runtime
       (Example.linux {["XDG_RUNTIME_DIR" := "/run/user/1000"]}) "/data"
       "shared".
Proof.
  intros H.
  pose proof (getIPCHandle_posix_types Example.runtime
                (Example.linux {["XDG_RUNTIME_DIR" := "/run/user/1000"]})
                "/data" "main" "shared" eq_refl ltac:(discriminate)
                eq_refl eq_refl eq_refl eq_refl H) as E.
  discriminate E.
Defined.

(** ** The constructor: what it touches and how runs follow each other *)

Section Runs.

Variable rt : Runtime.

(** The world after [n] process starts, one after the other. *)
Fixpoint restarts (a : ParsedArgs.t) (exe : string) (g : Globals) (n : nat)
    (w : World) : World :=
  match n with
  | O => w
  | S k => restarts a exe g k (snd (constructor rt a exe g w))
  end.

(** The identity a process start in world [w] ends up with. *)
Definition identity (a : ParsedArgs.t) (exe : string) (g : Globals)
    (w : World) : option string :=
  match fst (constructor rt a exe g w) with
  | Return this => machineUUID this
  | Throw _ => None
  end.

Lemma memo_prepared a exe g :
  memo (prepared rt a exe g)
  = {["$memoize$userDataPath" := VString (parseUserDataDir rt a (process g))]}.
Proof.
  unfold prepared, userDataPath, memoize, fresh, bind, ret, args_field,
    globals.
  simpl. rewrite lookup_empty. reflexivity.
Qed.

(** When the identity file can be read, its content is the identity as it
    is — the empty string for an empty file — and the constructor does
    nothing else: no identifier is generated, nothing is written or warned
    about, and the file system is left untouched. *)
Theorem constructor_readable_file a exe g w content :
  read_file (fs w) (machineIdPath rt a g) = Return content ->
  exists this w',
    constructor rt a exe g w = (Return this, w')
    /\ machineUUID this = Some content
    /\ fs w' = fs w
    /\ uuid_next w' = uuid_next w
    /\ log w' = (log w ++ [EvRead (machineIdPath rt a g)])%list.
Proof.
  intros Hr. pose proof (constructor_cases rt a exe g w) as Hc.
  cbv zeta in Hc. rewrite Hr in Hc.
  do 2 eexists. split; [exact Hc|]. repeat split.
Qed.

(** Which file an event concerns; a warning concerns none. *)
Definition event_file (e : event) : option string :=
  match e with
  | EvRead p | EvWrite p _ => Some p
  | EvWarn _ => None
  end.

(** Whatever the world, the constructor returns an instance that holds its
    two parameters and an identity, and on which only [userDataPath] has
    been computed; it performs between one and three effects, none on a
    file other than the identity file; it leaves every other file, and what
    can be read and written, as they were; and it draws at most one
    identifier. *)
Theorem constructor_footprint a exe g w :
  exists this w' new,
    constructor rt a exe g w = (Return this, w')
    /\ (_args this = a /\ _execPath this = exe /\ machineUUID this <> None)
    /\ memo this
       = {["$memoize$userDataPath"
             := VString (parseUserDataDir rt a (process g))]}
    /\ (log w' = (log w ++ new)%list
        /\ (1 <= length new <= 3)%nat
        /\ Forall (fun e => event_file e = None
                            \/ event_file e = Some (machineIdPath rt a g))
             new)
    /\ (forall q, q <> machineIdPath rt a g ->
          files (fs w') !! q = files (fs w) !! q)
    /\ read_faults (fs w') = read_faults (fs w)
    /\ write_faults (fs w') = write_faults (fs w)
    /\ uuids w' = uuids w
    /\ (uuid_next w <= uuid_next w' <= S (uuid_next w))%nat.
Proof.
  pose proof (constructor_cases rt a exe g w) as Hc. cbv zeta in Hc.
  pose proof (memo_prepared a exe g) as Hm.
  assert (Hargs : _args (prepared rt a exe g) = a
                  /\ _execPath (prepared rt a exe g) = exe).
  { destruct (consistent_prepared rt a exe g) as (HA & HE & _). now split. }
  destruct Hargs as [HA HE].
  assert (Hev : forall p' u m,
            Forall (fun e => event_file e = None \/ event_file e = Some p')
              [EvRead p'; EvWrite p' u; EvWarn m]).
  { intros. constructor; [now right|]. constructor; [now right|].
    constructor; [now left | constructor]. }
  destruct (read_file (fs w) (machineIdPath rt a g)) as [content|e];
    [|destruct (write_faults (fs w) !! machineIdPath rt a g) as [ft|] eqn:Hw].
  - exists (set_machineUUID (prepared rt a exe g) content),
      (after_read (machineIdPath rt a g) w), [EvRead (machineIdPath rt a g)].
    split; [exact Hc|]. split; [now repeat split|]. split; [exact Hm|].
    split; [|now repeat split; simpl; try lia].
    split; [reflexivity|]. split; [simpl; lia|].
    constructor; [now right | constructor].
  - eexists _, _, [EvRead (machineIdPath rt a g);
                   EvWrite (machineIdPath rt a g) (uuids w (uuid_next w));
                   EvWarn "Could not store machine ID"].
    split; [exact Hc|]. split; [now repeat split|]. split; [exact Hm|].
    split; [split; [simpl; now rewrite <- !app_assoc|];
            split; [simpl; lia | apply Hev]|].
    split; [|destruct ft; now repeat split; simpl; try lia].
    intros q Hq. destruct ft as [e'|e' written]; simpl; [reflexivity|].
    now rewrite lookup_insert_ne.
  - eexists _, _, [EvRead (machineIdPath rt a g);
                   EvWrite (machineIdPath rt a g) (uuids w (uuid_next w))].
    split; [exact Hc|]. split; [now repeat split|]. split; [exact Hm|].
    split; [split; [simpl; now rewrite <- !app_assoc|]; split; [simpl; lia|]|].
    + constructor; [now right|]. constructor; [now right | constructor].
    + split; [|now repeat split; simpl; try lia].
      intros q Hq. simpl. now rewrite lookup_insert_ne.
Qed.

Lemma restarts_step a exe g n w :
  restarts a exe g (S n) w
  = restarts a exe g n (snd (constructor rt a exe g w)).
Proof. reflexivity. Qed.

(** Once the identity file can be read, every later start of the process
    finds the same identity and leaves the file system as it is, however
    many starts follow. *)
Theorem identity_is_stable_once_readable a exe g w content n :
  read_file (fs w) (machineIdPath rt a g) = Return content ->
  identity a exe g (restarts a exe g n w) = Some content
  /\ fs (restarts a exe g n w) = fs w
  /\ uuid_next (restarts a exe g n w) = uuid_next w.
Proof.
  revert w. induction n as [|n IH]; intros w Hr.
  - pose proof (constructor_cases rt a exe g w) as Hc. cbv zeta in Hc.
    rewrite Hr in Hc. unfold identity. simpl restarts. rewrite Hc.
    now repeat split.
  - rewrite restarts_step.
    pose proof (constructor_cases rt a exe g w) as Hc. cbv zeta in Hc.
    rewrite Hr in Hc. rewrite Hc. simpl snd.
    destruct (IH (after_read (machineIdPath rt a g) w) Hr) as (H1 & H2 & H3).
    now repeat split.
Qed.

(** When the identity file can be neither read nor opened for writing,
    every start of the process draws a new identifier: the start after [n]
    earlier ones has the identifier number [n] of the source as its
    identity, and the file system never changes. *)
Theorem identity_is_renewed_when_not_stored a exe g w e e' n :
  read_file (fs w) (machineIdPath rt a g) = Throw e ->
  write_faults (fs w) !! machineIdPath rt a g = Some (OpenFails e') ->
  identity a exe g (restarts a exe g n w)
  = Some (uuids w (uuid_next w + n)%nat)
  /\ fs (restarts a exe g n w) = fs w
  /\ uuid_next (restarts a exe g n w) = (uuid_next w + n)%nat.
Proof.
  revert w. induction n as [|n IH]; intros w Hr Hw.
  - pose proof (constructor_cases rt a exe g w) as Hc. cbv zeta in Hc.
    rewrite Hr, Hw in Hc. unfold identity. simpl restarts. rewrite Hc.
    rewrite Nat.add_0_r. now repeat split.
  - rewrite restarts_step.
    pose proof (constructor_cases rt a exe g w) as Hc. cbv zeta in Hc.
    rewrite Hr, Hw in Hc. rewrite Hc. simpl snd.
    match goal with |- context [restarts a exe g n ?w1] =>
      destruct (IH w1 Hr Hw) as (H1 & H2 & H3)
    end.
    rewrite H1, H2, H3. simpl. rewrite Nat.add_succ_r. now repeat split.
Qed.

Lemma substr0_whole n s : JS.substr0 n s = s -> (String.length s <= n)%nat.
Proof.
  revert s. induction n as [|n IH]; intros [|c r] H; simpl in *;
    try lia; try discriminate.
  injection H as H. apply IH in H. lia.
Qed.

(** When there was no identity file and the write of the new identifier
    fails after the file was opened, the file is left behind with what was
    written of the identifier, nothing for a full disk. The next start
    reads that file without complaint: its identity is the truncated
    identifier, not the one the first start used, and it generates
    nothing. *)
Theorem identity_after_interrupted_write a exe g w e e' written :
  let p := machineIdPath rt a g in
  let u := uuids w (uuid_next w) in
  let w1 := snd (constructor rt a exe g w) in
  read_file (fs w) p = Throw e ->
  read_faults (fs w) !! p = None ->
  write_faults (fs w) !! p = Some (WriteFails e' written) ->
  identity a exe g w = Some u
  /\ read_file (fs w1) p = Return (JS.substr0 written u)
  /\ identity a exe g w1 = Some (JS.substr0 written u)
  /\ uuid_next (snd (constructor rt a exe g w1)) = uuid_next w1
  /\ fs (snd (constructor rt a exe g w1)) = fs w1
  /\ ((written < String.length u)%nat ->
      identity a exe g w1 <> identity a exe g w).
Proof.
  intros p u w1 Hr Hrf Hw.
  pose proof (constructor_cases rt a exe g w) as Hc. cbv zeta in Hc.
  fold p u in Hc. rewrite Hr, Hw in Hc.
  assert (Hread : read_file (fs w1) p = Return (JS.substr0 written u)).
  { subst w1. rewrite Hc. unfold read_file. simpl.
    now rewrite Hrf, lookup_insert_eq. }
  pose proof (constructor_cases rt a exe g w1) as Hc1. cbv zeta in Hc1.
  fold p in Hc1. rewrite Hread in Hc1.
  assert (H0 : identity a exe g w = Some u).
  { unfold identity. now rewrite Hc. }
  assert (H1 : identity a exe g w1 = Some (JS.substr0 written u)).
  { unfold identity. now rewrite Hc1. }
  split; [exact H0|]. split; [exact Hread|]. split; [exact H1|].
  split; [now rewrite Hc1|]. split; [now rewrite Hc1|].
  intros Hlt. rewrite H0, H1. intros [= E]. apply substr0_whole in E. lia.
Qed.

End Runs.

(** A disk that holds an identity file with the given content. *)
Definition disk_with_identity (content : string) : FileSystem :=
  {| files := {[Example.machineid := content]}; read_faults := ∅;
     write_faults := ∅ |}.

Lemma constructor_readable_file_witness :
  identity Example.runtime Example.no_args Example.exe Example.packaged
    (Example.world
       (disk_with_identity ""))
  = Some "".
Proof.
  destruct (constructor_readable_file Example.runtime Example.no_args
              Example.exe Example.packaged
              (Example.world
                 (disk_with_identity ""))
              "" ltac:(reflexivity)) as (this & w' & Hc & Hu & _).
  unfold identity. rewrite Hc. exact Hu.
Defined.

Lemma identity_is_stable_once_readable_witness :
  identity Example.runtime Example.no_args Example.exe Example.packaged
    (restarts Example.runtime Example.no_args Example.exe Example.packaged 3
       (Example.world
          (disk_with_identity "stored")))
  = Some "stored".
Proof.
  exact (proj1 (identity_is_stable_once_readable Example.runtime
                  Example.no_args Example.exe
                  Example.packaged
                  (Example.world
                     (disk_with_identity "stored"))
                  "stored" 3 ltac:(reflexivity))).
Defined.

Lemma identity_is_renewed_when_not_stored_witness :
  identity Example.runtime Example.no_args Example.exe Example.packaged
    (restarts Example.runtime Example.no_args Example.exe Example.packaged 1
       (Example.world Example.read_only_disk))
  = Some "d41c8e9b-2f60-4a17-b3e5-9a0c6f2d7e81".
Proof.
  exact (proj1 (identity_is_renewed_when_not_stored Example.runtime
                  Example.no_args Example.exe Example.packaged
                  (Example.world Example.read_only_disk) ENOENT EACCES 1
                  ltac:(reflexivity) ltac:(reflexivity))).
Defined.

Lemma identity_after_interrupted_write_witness :
  identity Example.runtime Example.no_args Example.exe Example.packaged
    (Example.world Example.full_disk)
  = Some "0a3f9c52-7b1e-4d6a-9c2f-1e5b8a7d4c30"
  /\ identity Example.runtime Example.no_args Example.exe Example.packaged
       (Example.next_world Example.no_args Example.packaged
          (Example.world Example.full_disk))
     = Some "".
Proof.
  destruct (identity_after_interrupted_write Example.runtime
              Example.no_args Example.exe Example.packaged
              (Example.world Example.full_disk) ENOENT ENOSPC 0
              ltac:(reflexivity) ltac:(reflexivity) ltac:(reflexivity))
    as (H0 & _ & H1 & _).
  split; [exact H0 | exact H1].
Defined.

(** ** The paths under the user data directory never move *)

Section Frozen.

Variable rt : Runtime.
Variable U : string.

(** What the memo properties of the user data directory and of the six
    paths derived from it alone must hold. *)
Definition frozen_value (key : string) : option Value :=
  if String.eqb key "$memoize$userDataPath" then Some (VString U)
  else if String.eqb key "$memoize$appSettingsHome"
  then Some (VString (join (path rt) [U; "User"]))
  else if String.eqb key "$memoize$appSettingsPath"
  then Some (VString (join (path rt)
                        [join (path rt) [U; "User"]; "settings.json"]))
  else if String.eqb key "$memoize$appKeybindingsPath"
  then Some (VString (join (path rt)
                        [join (path rt) [U; "User"]; "keybindings.json"]))
  else if String.eqb key "$memoize$backupHome"
  then Some (VString (join (path rt) [U; "Backups"]))
  else if String.eqb key "$memoize$backupWorkspacesPath"
  then Some (VString (join (path rt)
                        [join (path rt) [U; "Backups"]; "workspaces.json"]))
  else if String.eqb key "$memoize$workspacesHome"
  then Some (VString (join (path rt) [U; "Workspaces"]))
  else None.

(** The user data directory is stored, and each of the seven properties
    that is stored holds that value. *)
Definition anchored (this : EnvironmentService) : Prop :=
  memo this !! "$memoize$userDataPath" = Some (VString U)
  /\ forall key v e, frozen_value key = Some e ->
       memo this !! key = Some v -> v = e.

(** On an anchored instance the getter returns a value that satisfies [P],
    under any ambient state, and leaves the instance anchored. *)
Definition keeps {A} (m : Getter A) (P : A -> Prop) : Prop :=
  forall g this, anchored this ->
    P (fst (m g this)) /\ anchored (snd (m g this)).

Definition sound {A} (m : Getter A) : Prop := keeps m (fun _ => True).

Lemma sound_of_keeps {A} (m : Getter A) P : keeps m P -> sound m.
Proof. intros H g this Ha. split; [exact I | now apply H]. Qed.

Lemma keeps_ret {A} (a : A) (P : A -> Prop) : P a -> keeps (ret a) P.
Proof. intros Hp g this Ha. now split. Qed.

Lemma keeps_bind {A B} (m : Getter A) (k : A -> Getter B) P Q :
  keeps m P -> (forall a, P a -> keeps (k a) Q) -> keeps (bind m k) Q.
Proof.
  intros Hm Hk g this Ha. unfold bind.
  destruct (Hm g this Ha) as [Hp Ha']. destruct (m g this) as [x this'].
  now apply Hk.
Qed.

Lemma sound_ret {A} (a : A) : sound (ret a).
Proof. now apply keeps_ret. Qed.

Lemma sound_globals : sound globals.
Proof. intros g this Ha. now split. Qed.

Lemma sound_args_field : sound args_field.
Proof. intros g this Ha. now split. Qed.

Lemma sound_execPath : sound execPath.
Proof. intros g this Ha. now split. Qed.

Lemma sound_bind {A B} (m : Getter A) (k : A -> Getter B) :
  sound m -> (forall a, sound (k a)) -> sound (bind m k).
Proof. intros Hm Hk. eapply keeps_bind; [exact Hm | intros a _; apply Hk]. Qed.

Lemma frozen_userDataPath :
  frozen_value "$memoize$userDataPath" = Some (VString U).
Proof. reflexivity. Qed.

Lemma sound_memoize {A} `{Cacheable A} key (fn : Getter A) :
  frozen_value key = None -> sound fn -> sound (memoize key fn).
Proof.
  intros Hk Hfn g this Ha. split; [exact I|]. unfold memoize.
  destruct (memo this !! key) as [v|] eqn:E; [exact Ha|].
  destruct (Hfn g this Ha) as [_ [Hu Hf]].
  destruct (fn g this) as [x this']. simpl in *.
  assert (Hne : key <> "$memoize$userDataPath").
  { intros ->. rewrite frozen_userDataPath in Hk. discriminate Hk. }
  split; simpl.
  - now rewrite lookup_insert_ne.
  - intros k v e He Hv. destruct (decide (key = k)) as [->|Hd].
    + rewrite Hk in He. discriminate He.
    + rewrite lookup_insert_ne in Hv by exact Hd. now apply (Hf k).
Qed.

Lemma keeps_memoize {A} `{Cacheable A} key (fn : Getter A) x :
  frozen_value key = Some (enc x) ->
  keeps fn (eq x) -> keeps (memoize key fn) (eq x).
Proof.
  intros Hk Hfn g this Ha. unfold memoize.
  destruct (memo this !! key) as [v|] eqn:E; simpl.
  - split; [|exact Ha]. destruct Ha as [_ Hf].
    rewrite (Hf key v _ Hk E). symmetry. apply dec_enc.
  - destruct (Hfn g this Ha) as [Hx [Hu Hf]].
    destruct (fn g this) as [x' this']. simpl in *. subst x'.
    split; [reflexivity|]. split; simpl.
    + destruct (decide (key = "$memoize$userDataPath")) as [->|Hd].
      * rewrite lookup_insert_eq. rewrite frozen_userDataPath in Hk.
        now injection Hk as <-.
      * now rewrite lookup_insert_ne.
    + intros k v e He Hv. destruct (decide (key = k)) as [->|Hd].
      * rewrite lookup_insert_eq in Hv. injection Hv as <-. congruence.
      * rewrite lookup_insert_ne in Hv by exact Hd. now apply (Hf k).
Qed.

Lemma keeps_userDataPath : keeps (userDataPath rt) (eq U).
Proof.
  intros g this Ha. unfold userDataPath, memoize.
  destruct Ha as [Hu Hf]. rewrite Hu. simpl. now split.
Qed.

Lemma keeps_appSettingsHome :
  keeps (appSettingsHome rt) (eq (join (path rt) [U; "User"])).
Proof.
  apply keeps_memoize; [reflexivity|].
  eapply keeps_bind; [apply keeps_userDataPath|].
  intros x <-. now apply keeps_ret.
Qed.

Lemma keeps_appSettingsPath :
  keeps (appSettingsPath rt)
    (eq (join (path rt) [join (path rt) [U; "User"]; "settings.json"])).
Proof.
  apply keeps_memoize; [reflexivity|].
  eapply keeps_bind; [apply keeps_appSettingsHome|].
  intros x <-. now apply keeps_ret.
Qed.

Lemma keeps_appKeybindingsPath :
  keeps (appKeybindingsPath rt)
    (eq (join (path rt) [join (path rt) [U; "User"]; "keybindings.json"])).
Proof.
  apply keeps_memoize; [reflexivity|].
  eapply keeps_bind; [apply keeps_appSettingsHome|].
  intros x <-. now apply keeps_ret.
Qed.

Lemma keeps_backupHome :
  keeps (backupHome rt) (eq (join (path rt) [U; "Backups"])).
Proof.
  apply keeps_memoize; [reflexivity|].
  eapply keeps_bind; [apply keeps_userDataPath|].
  intros x <-. now apply keeps_ret.
Qed.

Lemma keeps_backupWorkspacesPath :
  keeps (backupWorkspacesPath rt)
    (eq (join (path rt) [join (path rt) [U; "Backups"]; "workspaces.json"])).
Proof.
  apply keeps_memoize; [reflexivity|].
  eapply keeps_bind; [apply keeps_backupHome|].
  intros x <-. now apply keeps_ret.
Qed.

Lemma keeps_workspacesHome :
  keeps (workspacesHome rt) (eq (join (path rt) [U; "Workspaces"])).
Proof.
  apply keeps_memoize; [reflexivity|].
  eapply keeps_bind; [apply keeps_userDataPath|].
  intros x <-. now apply keeps_ret.
Qed.

Ltac sound_step :=
  first
    [ exact (sound_of_keeps _ _ keeps_userDataPath)
    | exact (sound_of_keeps _ _ keeps_appSettingsHome)
    | exact (sound_of_keeps _ _ keeps_appSettingsPath)
    | exact (sound_of_keeps _ _ keeps_appKeybindingsPath)
    | exact (sound_of_keeps _ _ keeps_backupHome)
    | exact (sound_of_keeps _ _ keeps_backupWorkspacesPath)
    | exact (sound_of_keeps _ _ keeps_workspacesHome)
    | apply sound_memoize; [reflexivity|]
    | apply sound_bind; [|intro]
    | apply sound_ret
    | apply sound_globals
    | apply sound_args_field
    | apply sound_execPath
    | match goal with
      | |- sound (match ?x with _ => _ end) => destruct x
      end ].

Lemma sound_access p : sound (access rt p).
Proof.
  destruct p; unfold access, boxed;
    (apply sound_bind; [|intro; apply sound_ret]);
    first
      [ exact (sound_of_keeps _ _ keeps_userDataPath)
      | exact (sound_of_keeps _ _ keeps_appSettingsHome)
      | exact (sound_of_keeps _ _ keeps_appSettingsPath)
      | exact (sound_of_keeps _ _ keeps_appKeybindingsPath)
      | exact (sound_of_keeps _ _ keeps_backupHome)
      | exact (sound_of_keeps _ _ keeps_backupWorkspacesPath)
      | exact (sound_of_keeps _ _ keeps_workspacesHome)
      | autounfold with getters; repeat sound_step ].
Qed.

Lemma anchored_reads l this : anchored this -> anchored (reads rt l this).
Proof.
  revert this. induction l as [|[p g] l IH]; intros this Ha; simpl.
  - exact Ha.
  - apply IH. now apply sound_access.
Qed.

End Frozen.

Lemma anchored_constructed rt a exe g w this w' :
  constructor rt a exe g w = (Return this, w') ->
  anchored rt (parseUserDataDir rt a (process g)) this.
Proof.
  intros H. pose proof (constructor_cases rt a exe g w) as Hc.
  cbv zeta in Hc. rewrite H in Hc.
  assert (Hm : memo this = memo (prepared rt a exe g)).
  { destruct (read_file _ _); [|destruct (_ !! _)]; now injection Hc as -> _. }
  unfold anchored. rewrite Hm, memo_prepared. split.
  - apply lookup_singleton_eq.
  - intros key v e He Hv.
    destruct (decide (key = "$memoize$userDataPath")) as [->|Hne].
    + rewrite lookup_singleton_eq in Hv. injection Hv as <-.
      rewrite frozen_userDataPath in He. now injection He as <-.
    + rewrite lookup_singleton_ne in Hv by congruence. discriminate Hv.
Qed.

(** The user data directory is the one the constructor computed, for the
    life of the instance: whatever is read afterwards, and however the
    working directory and the environment change in between, [userDataPath]
    and the six paths derived from it alone — settings home and file,
    keybindings file, backup home and workspaces file, workspaces home —
    stay what they were at construction. *)
Theorem user_data_paths_are_frozen rt a exe g w this w' l g' :
  constructor rt a exe g w = (Return this, w') ->
  forall U now,
    U = parseUserDataDir rt a (process g) ->
    now = reads rt l this ->
    fst (userDataPath rt g' now) = U
    /\ fst (appSettingsHome rt g' now) = join (path rt) [U; "User"]
    /\ fst (appSettingsPath rt g' now)
       = join (path rt) [join (path rt) [U; "User"]; "settings.json"]
    /\ fst (appKeybindingsPath rt g' now)
       = join (path rt) [join (path rt) [U; "User"]; "keybindings.json"]
    /\ fst (backupHome rt g' now) = join (path rt) [U; "Backups"]
    /\ fst (backupWorkspacesPath rt g' now)
       = join (path rt) [join (path rt) [U; "Backups"]; "workspaces.json"]
    /\ fst (workspacesHome rt g' now) = join (path rt) [U; "Workspaces"].
Proof.
  intros H U now -> ->.
  pose proof (anchored_reads rt _ l this (anchored_constructed _ _ _ _ _ _ _ H))
    as Ha.
  repeat split; symmetry.
  - now apply (keeps_userDataPath rt).
  - now apply (keeps_appSettingsHome rt).
  - now apply (keeps_appSettingsPath rt).
  - now apply (keeps_appKeybindingsPath rt).
  - now apply (keeps_backupHome rt).
  - now apply (keeps_backupWorkspacesPath rt).
  - now apply (keeps_workspacesHome rt).
Qed.

Lemma user_data_paths_are_frozen_witness :
  fst (appSettingsPath Example.runtime
         (Example.globals
            {| Process.platform := "linux";
               Process.env := {["VSCODE_CWD" := "/elsewhere"]};
               Process.cwd := "/tmp" |})
         (reads Example.runtime [(PisBuilt, Example.dev)]
            (Example.instance (Example.args (Some "profile") None)
               Example.packaged (Example.world Example.empty_disk))))
  = "/work/profile/User/settings.json".
Proof.
  exact (proj1 (proj2 (proj2
           (user_data_paths_are_frozen Example.runtime
              (Example.args (Some "profile") None) Example.exe
              Example.packaged (Example.world Example.empty_disk) _ _
              [(PisBuilt, Example.dev)]
              (Example.globals
                 {| Process.platform := "linux";
                    Process.env := {["VSCODE_CWD" := "/elsewhere"]};
                    Process.cwd := "/tmp" |})
              (example_run _ _ _) _ _ eq_refl eq_refl)))).
Defined.

(** ** The extensions directory and the extension under development *)

(** Where the extensions live, in order: the [extensions-dir] argument when
    it is present and not empty, resolved like every path argument — it
    wins over the environment; else the value of [VSCODE_EXTENSIONS] when it
    is set and not empty, taken as it is, neither resolved nor normalized.
    (Read on a constructed instance, after any reads under the same ambient
    state.) *)
Theorem extensionsPath_precedence rt a exe g w this w' ps :
  constructor rt a exe g w = (Return this, w') ->
  (forall r,
     parsePathArg rt (ParsedArgs.extensions_dir a) (process g) = Some r ->
     fst (extensionsPath rt g (reads rt (under g ps) this)) = r)
  /\ (forall v,
        JS.truthy_opt (ParsedArgs.extensions_dir a) = false ->
        Process.env (process g) !! "VSCODE_EXTENSIONS" = Some v ->
        v <> "" ->
        fst (extensionsPath rt g (reads rt (under g ps) this)) = v).
Proof.
  intros H. destruct (constructor_consistent _ _ _ _ _ _ _ H) as [Hc _].
  pose proof (consistent_reads rt a exe g ps this Hc) as Hnow.
  pose proof (proj1 (yields_extensionsPath rt a exe g _ Hnow)) as Hv.
  split.
  - intros r Hr. rewrite Hv, Hr. unfold JS.or_else. simpl.
    rewrite (parsePathArg_truthy rt _ _ _ Hr). simpl.
    now rewrite (parsePathArg_truthy rt _ _ _ Hr).
  - intros v Ha He Hne. rewrite Hv, He.
    assert (Hdir : parsePathArg rt (ParsedArgs.extensions_dir a) (process g)
                   = None).
    { destruct (ParsedArgs.extensions_dir a) as [d|]; [|reflexivity].
      unfold parsePathArg. simpl in Ha. now rewrite Ha. }
    rewrite Hdir. unfold JS.or_else. simpl.
    now rewrite (truthy_str_nonempty v Hne).
Qed.

(** A run with [VSCODE_EXTENSIONS] set to a relative directory. *)
Definition extensions_from_environment : Globals :=
  Example.globals (Example.linux {["VSCODE_EXTENSIONS" := "ext/dir/"]}).

Lemma extensionsPath_precedence_witness :
  fst (extensionsPath Example.runtime
         extensions_from_environment
         (Example.instance (Example.args None (Some "my-extensions"))
            extensions_from_environment
            (Example.world Example.empty_disk)))
  = "/work/my-extensions"
  /\ fst (extensionsPath Example.runtime
            extensions_from_environment
            (Example.instance Example.no_args
               extensions_from_environment
               (Example.world Example.empty_disk)))
     = "ext/dir/".
Proof.
  split.
  - exact (proj1 (extensionsPath_precedence Example.runtime
                    (Example.args None (Some "my-extensions")) Example.exe
                    extensions_from_environment
                    (Example.world Example.empty_disk) _ _ []
                    (example_run _ _ _))
             "/work/my-extensions" ltac:(reflexivity)).
  - exact (proj2 (extensionsPath_precedence Example.runtime
                    Example.no_args Example.exe
                    extensions_from_environment
                    (Example.world Example.empty_disk) _ _ []
                    (example_run _ _ _))
             "ext/dir/" ltac:(reflexivity) ltac:(reflexivity)
             ltac:(discriminate)).
Defined.

(** ** Relative arguments and the original working directory *)

(** A component of a path: not empty and no slash in it. *)
Definition component (x : string) : Prop := x <> "" /\ slash_free x = true.

Lemma posix_segments_slash_free_all s :
  Forall (fun x => slash_free x = true) (Posix.segments s).
Proof.
  induction s as [|c r IH]; simpl; [repeat constructor|].
  destruct (Ascii.eqb c Posix.slash) eqn:Hc; [now constructor|].
  destruct (Posix.segments r) as [|x xs]; [repeat constructor; simpl|].
  - now rewrite Hc.
  - inversion IH as [|? ? Hx Hxs]; subst. constructor; [|exact Hxs].
    simpl. now rewrite Hc, Hx.
Qed.

Lemma posix_push_components allow st seg :
  slash_free seg = true -> Forall component st ->
  Forall component (Posix.push_segment allow st seg).
Proof.
  intros Hf Hst. unfold Posix.push_segment.
  destruct (String.eqb seg "") eqn:E0; simpl; [exact Hst|].
  destruct (String.eqb seg ".") eqn:E1; [exact Hst|].
  assert (Hc : component seg) by (split; [now apply String.eqb_neq | exact Hf]).
  destruct (String.eqb seg "..").
  - destruct st as [|top rest].
    + destruct allow; [now constructor | constructor].
    + destruct (String.eqb top "..").
      * destruct allow; [now constructor | exact Hst].
      * now inversion Hst.
  - now constructor.
Qed.

Lemma posix_fold_components allow segs : forall st,
  Forall (fun x => slash_free x = true) segs -> Forall component st ->
  Forall component (fold_left (Posix.push_segment allow) segs st).
Proof.
  induction segs as [|seg segs IH]; intros st Hs Hst; simpl; [exact Hst|].
  inversion Hs; subst. apply IH; [assumption|].
  now apply posix_push_components.
Qed.

Lemma component_relative x : component x -> Posix.is_absolute x = false.
Proof.
  intros [Hne Hf]. destruct x as [|c r]; [reflexivity|]. simpl in *.
  apply andb_prop in Hf as [Hc _]. now apply negb_true_iff in Hc.
Qed.

Lemma posix_join_with_slash_relative l :
  Forall component l -> Posix.is_absolute (Posix.join_with_slash l) = false.
Proof.
  intros Hl. destruct l as [|x l]; [reflexivity|].
  inversion Hl as [|? ? Hx _]; subst.
  pose proof (component_relative x Hx) as Hr. destruct Hx as [Hne _].
  destruct x as [|c r]; [congruence|]. now destruct l.
Qed.

Lemma posix_normalizeString_relative s allow :
  Posix.is_absolute (Posix.normalizeString s allow) = false.
Proof.
  unfold Posix.normalizeString. apply posix_join_with_slash_relative.
  apply Forall_rev, posix_fold_components; [|constructor].
  apply posix_segments_slash_free_all.
Qed.

Lemma posix_is_absolute_append x y :
  x <> "" -> Posix.is_absolute (x ++ y) = Posix.is_absolute x.
Proof. destruct x; [congruence | reflexivity]. Qed.

(** [normalize] keeps a relative path relative. *)
Lemma posix_normalize_relative s :
  Posix.is_absolute s = false -> Posix.is_absolute (Posix.normalize s) = false.
Proof.
  intros Hs. unfold Posix.normalize.
  destruct (String.eqb s ""); [reflexivity|]. rewrite Hs. simpl negb.
  pose proof (posix_normalizeString_relative s true) as Hp.
  destruct (String.eqb (Posix.normalizeString s true) "") eqn:E; simpl.
  - now destruct (Posix.ends_with_slash s).
  - rewrite E. simpl. apply String.eqb_neq in E.
    destruct (Posix.ends_with_slash s); [|exact Hp].
    now rewrite posix_is_absolute_append.
Qed.

(** On POSIX, with an absolute working directory, a relative argument is
    resolved against [VSCODE_CWD] whenever that variable holds an absolute
    directory: the result is the same whatever the working directory of
    the process has become. *)
Theorem parsePathArg_original_cwd (rt : Runtime) (a original : string)
    (proc : Process.t) :
  path rt = Example.posix ->
  a <> "" ->
  Posix.is_absolute a = false ->
  Posix.is_absolute (Process.cwd proc) = true ->
  Process.env proc !! "VSCODE_CWD" = Some original ->
  Posix.is_absolute original = true ->
  parsePathArg rt (Some a) proc = Some (Posix.resolve "" [original; a]).
Proof.
  intros Hp Ha Hrel Hcwd Henv Habs.
  rewrite parsePathArg_given by exact Ha. rewrite Hp.
  cbn [resolve normalize Example.posix].
  assert (Hne : String.eqb (Posix.normalize a)
                  (Posix.resolve (Process.cwd proc) [a]) = false).
  { apply String.eqb_neq. intros E.
    pose proof (posix_normalize_relative a Hrel) as H1.
    pose proof (posix_resolve_absolute (Process.cwd proc) [a] Hcwd) as H2.
    rewrite E in H1. congruence. }
  rewrite Hne. unfold effective_cwd. rewrite Henv.
  rewrite (truthy_str_nonempty original (posix_absolute_nonempty _ Habs)).
  f_equal. unfold Posix.resolve. simpl.
  apply String.eqb_neq in Ha. rewrite Ha, Hrel.
  destruct original as [|c r]; [discriminate|]. simpl in Habs. simpl.
  now rewrite Habs.
Qed.

(** A process that was started in [/orig] and has moved to [/work]. *)
Definition moved_process : Process.t :=
  Example.linux {["VSCODE_CWD" := "/orig"]}.

Lemma parsePathArg_original_cwd_witness :
  parsePathArg Example.runtime (Some "../data") moved_process
  = Some "/data".
Proof.
  exact (parsePathArg_original_cwd Example.runtime "../data" "/orig"
           moved_process eq_refl ltac:(discriminate) eq_refl eq_refl
           ltac:(reflexivity) eq_refl).
Defined.

(** ** The extension under development *)

Lemma truthy_str_append_r x y : y <> "" -> JS.truthy_str (x ++ y) = true.
Proof.
  intros Hy. destruct x; [|reflexivity].
  change ("" ++ y) with y. now apply truthy_str_nonempty.
Qed.

(** [normalize] never returns the empty string. *)
Lemma posix_normalize_truthy s : JS.truthy_str (Posix.normalize s) = true.
Proof.
  unfold Posix.normalize. destruct (String.eqb s ""); [reflexivity|].
  destruct (Posix.is_absolute s); [reflexivity|]. simpl negb.
  destruct (String.eqb (Posix.normalizeString s true) "") eqn:E; simpl.
  - now destruct (Posix.ends_with_slash s).
  - rewrite E. simpl. apply String.eqb_neq in E.
    destruct (Posix.ends_with_slash s).
    + now apply truthy_str_append_r.
    + now apply truthy_str_nonempty.
Qed.

(** With the POSIX [path] module, [isExtensionDevelopment] is true exactly
    when [extensionDevelopmentPath] is a path that is not empty; that path
    is the argument normalized, and not resolved: a relative argument stays
    relative. An argument that is absent stays absent and an empty one
    stays empty. (Read on a constructed instance, after any reads under the
    same ambient state.) *)
Theorem extension_development rt a exe g w this w' ps :
  path rt = Example.posix ->
  constructor rt a exe g w = (Return this, w') ->
  forall now, now = reads rt (under g ps) this ->
  (fst (isExtensionDevelopment g now) = true
   <-> exists p, fst (extensionDevelopmentPath rt g now) = Some p /\ p <> "")
  /\ (forall s, ParsedArgs.extensionDevelopmentPath a = Some s -> s <> "" ->
        fst (extensionDevelopmentPath rt g now) = Some (Posix.normalize s)
        /\ Posix.is_absolute (Posix.normalize s) = Posix.is_absolute s)
  /\ (fst (extensionDevelopmentPath rt g now)
      = ParsedArgs.extensionDevelopmentPath a
      \/ fst (isExtensionDevelopment g now) = true).
Proof.
  intros Hp H now ->.
  destruct (constructor_consistent _ _ _ _ _ _ _ H) as [Hc _].
  pose proof (consistent_reads rt a exe g ps this Hc) as Hnow.
  rewrite (proj1 (yields_isExtensionDevelopment rt a exe g _ Hnow)).
  rewrite (proj1 (yields_extensionDevelopmentPath rt a exe g _ Hnow)).
  unfold normalize_if_given. rewrite Hp. cbn [normalize Example.posix].
  destruct (ParsedArgs.extensionDevelopmentPath a) as [s|]; simpl.
  - destruct (JS.truthy_str s) eqn:Hs.
    + split; [|split].
      * split; [intros _ | reflexivity].
        exists (Posix.normalize s). split; [reflexivity|].
        apply truthy_str_true, posix_normalize_truthy.
      * intros s' [= <-] _. split; [reflexivity|].
        destruct (Posix.is_absolute s) eqn:Ea.
        -- now apply posix_normalize_absolute.
        -- now apply posix_normalize_relative.
      * now right.
    + split; [|split].
      * split; [discriminate|]. intros (p & [= <-] & Hne).
        destruct s; [congruence | discriminate Hs].
      * intros s' [= <-] Hne. destruct s; [congruence | discriminate Hs].
      * now left.
  - split; [|split].
    + split; [discriminate|]. intros (p & Hp' & _). discriminate Hp'.
    + intros s [=].
    + now left.
Qed.

(** A command line that names an extension under development. *)
Definition developing : ParsedArgs.t :=
  {| ParsedArgs.user_data_dir := None;
     ParsedArgs.extensions_dir := None;
     ParsedArgs.extensionDevelopmentPath := Some "./my-ext/../ext/";
     ParsedArgs.extensionTestsPath := None;
     ParsedArgs.disable_extensions := None;
     ParsedArgs.skip_getting_started := None;
     ParsedArgs.debugPluginHost := None;
     ParsedArgs.debugBrkPluginHost := None;
     ParsedArgs.debugId := None;
     ParsedArgs.debugSearch := None;
     ParsedArgs.debugBrkSearch := None;
     ParsedArgs.verbose := None;
     ParsedArgs.wait := None;
     ParsedArgs.logExtensionHostCommunication := None;
     ParsedArgs.performance := None;
     ParsedArgs.prof_startup := None |}.

Lemma extension_development_witness :
  fst (extensionDevelopmentPath Example.runtime Example.dev
         (Example.instance
            developing
            Example.dev (Example.world Example.empty_disk)))
  = Some "ext/".
Proof.
  exact (proj1 (proj1 (proj2
           (extension_development Example.runtime developing Example.exe
              Example.dev
              (Example.world Example.empty_disk) _ _ [] eq_refl
              (example_run _ _ _) _ eq_refl))
           "./my-ext/../ext/" eq_refl ltac:(discriminate))).
Defined.

(** ** Debug ports: no range check *)

Lemma digit_not_white_space c :
  JS.is_decimal_digit c = true -> JS.is_white_space c = false.
Proof.
  intros Hc. destruct (decimal_digit_code c Hc) as [Hn _].
  unfold JS.is_white_space.
  apply orb_false_intro; [apply orb_false_intro|].
  - apply andb_false_iff. right. apply Nat.leb_gt. lia.
  - apply Nat.eqb_neq. lia.
  - apply Nat.eqb_neq. lia.
Qed.

Lemma rev_string_digits_head s : forall acc,
  s <> "" -> JS.all_digits s = true ->
  exists c r, JS.rev_string acc s = String c r
              /\ JS.is_decimal_digit c = true.
Proof.
  induction s as [|c s IH]; intros acc Hne H; [congruence|].
  simpl in H. apply andb_prop in H as [Hc Hs]. simpl.
  destruct s as [|c' s']; [simpl; eauto|].
  apply IH; [discriminate | exact Hs].
Qed.

Lemma trim_minus_digits s :
  s <> "" -> JS.all_digits s = true ->
  JS.trim (String "-" s) = String "-" s.
Proof.
  intros Hne H. unfold JS.trim.
  change (JS.trim_left (String "-" s)) with (String "-" s).
  destruct (rev_string_digits_head s "-" Hne H) as (c & r & Hrev & Hc).
  change (JS.rev_string "" (String "-" s)) with (JS.rev_string "-" s).
  assert (Ht : JS.trim_left (JS.rev_string "-" s) = JS.rev_string "-" s).
  { rewrite Hrev. simpl. now rewrite (digit_not_white_space c Hc). }
  rewrite Ht.
  change (JS.rev_string "-" s) with (JS.rev_string "" (String "-" s)).
  rewrite rev_string_twice. simpl. now rewrite append_empty_r.
Qed.

Lemma Number_negative_decimal s :
  s <> "" -> JS.all_digits s = true -> JS.decimal_value 0 s <> 0 ->
  JS.Number (Some (String "-" s)) = JS.of_Z (- JS.decimal_value 0 s).
Proof.
  intros Hne H Hv. unfold JS.Number, JS.string_to_number.
  rewrite (trim_minus_digits s Hne H). cbv iota.
  unfold JS.read_decimal.
  assert (Hinf : String.eqb s "Infinity" = false).
  { destruct s as [|c r]; [reflexivity|]. simpl in H.
    apply andb_prop in H as [Hc _]. digit_cases c Hc; reflexivity. }
  rewrite Hinf. unfold JS.read_unsigned_decimal.
  rewrite read_digits_all by exact H.
  destruct s as [|c r]; [congruence|]. simpl String.length. simpl Nat.add.
  cbn [JS.read_exponent]. unfold JS.round_MV; simpl.
  cbn [JS.decimal_value] in Hv. apply Z.eqb_neq in Hv. rewrite Hv.
  cbn [JS.decimal_value]. unfold JS.of_Z. now rewrite Z.mul_1_r.
Qed.

(** The port is not checked against any range: a minus sign followed by
    decimal digits that denote a non-zero integer gives that negative
    integer as the port, in a built run just as in a development run. *)
Theorem parseDebugPort_negative_port debugArg debugBrkArg s d isBuild id :
  JS.or_else debugBrkArg debugArg = Some (String "-" s) ->
  s <> "" -> JS.all_digits s = true -> JS.decimal_value 0 s <> 0 ->
  port (parseDebugPort debugArg debugBrkArg d isBuild id)
  = Some (JS.of_Z (- JS.decimal_value 0 s))
  /\ break (parseDebugPort debugArg debugBrkArg d isBuild id)
     = JS.truthy_opt debugBrkArg.
Proof.
  intros Hsrc Hne Hd Hv.
  assert (Hp : port (parseDebugPort debugArg debugBrkArg d isBuild id)
               = Some (JS.of_Z (- JS.decimal_value 0 s))).
  { rewrite port_of_parseDebugPort. cbv zeta.
    rewrite Hsrc, (Number_negative_decimal s Hne Hd Hv).
    rewrite of_Z_truthy by lia. reflexivity. }
  split; [exact Hp|].
  rewrite break_of_parseDebugPort, Hp. simpl.
  now rewrite of_Z_truthy by lia.
Qed.

Lemma parseDebugPort_negative_port_witness :
  port (parseDebugPort (Some "-1") None (JS.of_Z 5870) true None)
  = Some (JS.of_Z (-1)).
Proof.
  exact (proj1 (parseDebugPort_negative_port (Some "-1") None "1"
                  (JS.of_Z 5870) true None eq_refl ltac:(discriminate)
                  eq_refl ltac:(vm_compute; discriminate))).
Defined.
